(** * download_images.py: extraction, canonicalisation and download pipeline

    A shallow embedding of [src/download_images.py] and of the parts of the
    Python standard library it calls ([urllib.parse], [os.path], and the
    [tenacity] retry decorator), followed by the properties of the program.

    Conventions of the model.
    - A Python [str] is a [string]; its characters are the bytes of the
      UTF-8 encoding of the text.  [str.lower] is modelled on ASCII letters,
      and percent-escapes are assumed to decode to valid UTF-8 (Python
      replaces invalid sequences by U+FFFD).  The model is exact on ASCII
      text, which is what URLs are made of.
    - A Python [dict] is an association list with unique keys in insertion
      order: [urlencode] iterates over the dictionary in that order.
    - A Python [set] of strings is a [gset string]; the filesystem is a
      [gmap] from paths to nodes.
    - An exception is a value of a sum or option type threaded through the
      callers, as the interpreter unwinds the stack. *)

From Stdlib Require Import Ascii String ZArith Lia.
From stdpp Require Import base option list gmap strings pretty.

Local Open Scope string_scope.
Local Open Scope list_scope.

(** ** Python string primitives *)

Module PyStr.

Definition is_upper (c : ascii) : bool :=
  let n := nat_of_ascii c in (65 <=? n)%nat && (n <=? 90)%nat.

Definition is_lower (c : ascii) : bool :=
  let n := nat_of_ascii c in (97 <=? n)%nat && (n <=? 122)%nat.

Definition is_digit (c : ascii) : bool :=
  let n := nat_of_ascii c in (48 <=? n)%nat && (n <=? 57)%nat.

Definition is_alpha (c : ascii) : bool := is_upper c || is_lower c.

Definition lower_char (c : ascii) : ascii :=
  if is_upper c then ascii_of_nat (nat_of_ascii c + 32) else c.

(** [s.lower()] *)
Fixpoint lower (s : string) : string :=
  match s with
  | EmptyString => EmptyString
  | String c t => String (lower_char c) (lower t)
  end.

(** [bool(s)]: a string is truthy when it is not empty. *)
Definition truthy (s : string) : bool :=
  match s with EmptyString => false | String _ _ => true end.

(** [s.startswith(p)] *)
Fixpoint startswith (p s : string) : bool :=
  match p, s with
  | EmptyString, _ => true
  | String _ _, EmptyString => false
  | String a p', String b s' => Ascii.eqb a b && startswith p' s'
  end.

Fixpoint rev_onto (s acc : string) : string :=
  match s with
  | EmptyString => acc
  | String c t => rev_onto t (String c acc)
  end.

Definition rev (s : string) : string := rev_onto s EmptyString.

(** [s.endswith(p)] *)
Definition endswith (p s : string) : bool := startswith (rev p) (rev s).

(** [needle in hay] *)
Fixpoint contains (needle hay : string) : bool :=
  startswith needle hay ||
  match hay with
  | EmptyString => false
  | String _ t => contains needle t
  end.

(** [c in s] for a single character *)
Fixpoint has_char (c : ascii) (s : string) : bool :=
  match s with
  | EmptyString => false
  | String a t => Ascii.eqb a c || has_char c t
  end.

Fixpoint forallb (f : ascii -> bool) (s : string) : bool :=
  match s with
  | EmptyString => true
  | String a t => f a && forallb f t
  end.

Fixpoint filter (f : ascii -> bool) (s : string) : string :=
  match s with
  | EmptyString => EmptyString
  | String a t => if f a then String a (filter f t) else filter f t
  end.

Fixpoint drop_while (f : ascii -> bool) (s : string) : string :=
  match s with
  | EmptyString => EmptyString
  | String a t => if f a then drop_while f t else s
  end.

(** The longest prefix free of characters satisfying [f], and the rest
    (which starts at the first such character, when there is one). *)
Fixpoint break (f : ascii -> bool) (s : string) : string * string :=
  match s with
  | EmptyString => (EmptyString, EmptyString)
  | String a t =>
      if f a then (EmptyString, s)
      else let '(u, v) := break f t in (String a u, v)
  end.

(** [s.split(c, 1)] when [c in s]: the text before and after the first
    occurrence; [None] when [c] does not occur. *)
Fixpoint split_once (c : ascii) (s : string) : option (string * string) :=
  match s with
  | EmptyString => None
  | String a t =>
      if Ascii.eqb a c then Some (EmptyString, t)
      else match split_once c t with
           | Some (u, v) => Some (String a u, v)
           | None => None
           end
  end.

(** [s.split(c)] for a one-character separator: never the empty list. *)
Fixpoint split (c : ascii) (s : string) : list string :=
  match s with
  | EmptyString => [EmptyString]
  | String a t =>
      if Ascii.eqb a c then EmptyString :: split c t
      else match split c t with
           | u :: r => String a u :: r
           | [] => [String a EmptyString]
           end
  end.

(** [sep.join(l)] *)
Fixpoint join (sep : string) (l : list string) : string :=
  match l with
  | [] => EmptyString
  | [x] => x
  | x :: r => x +:+ sep +:+ join sep r
  end.

(** [s.replace(a, b)] for single characters *)
Fixpoint replace_char (a b : ascii) (s : string) : string :=
  match s with
  | EmptyString => EmptyString
  | String c t => String (if Ascii.eqb c a then b else c) (replace_char a b t)
  end.

(** The text after the last occurrence of [c] ([s[s.rfind(c)+1:]]), and the
    text up to and including it. *)
Fixpoint after_last (c : ascii) (s : string) : string :=
  match s with
  | EmptyString => EmptyString
  | String a t =>
      if has_char c t then after_last c t
      else if Ascii.eqb a c then t else s
  end.

Fixpoint upto_last (c : ascii) (s : string) : string :=
  match s with
  | EmptyString => EmptyString
  | String a t =>
      if has_char c t then String a (upto_last c t)
      else if Ascii.eqb a c then String a EmptyString else EmptyString
  end.

End PyStr.

(** ** [urllib.parse] (CPython 3.11) *)

Module UrlParse.
Import PyStr.

Record SplitResult := mkSplit {
  s_scheme : string; s_netloc : string; s_path : string;
  s_query : string; s_fragment : string }.

Record ParseResult := mkParse {
  scheme : string; netloc : string; path : string;
  params : string; query : string; fragment : string }.

Definition uses_relative : list string :=
  [""; "ftp"; "http"; "gopher"; "nntp"; "imap"; "wais"; "file"; "https";
   "shttp"; "mms"; "prospero"; "rtsp"; "rtspu"; "sftp"; "svn"; "svn+ssh";
   "ws"; "wss"].

Definition uses_netloc : list string :=
  [""; "ftp"; "http"; "gopher"; "nntp"; "telnet"; "imap"; "wais"; "file";
   "mms"; "https"; "shttp"; "snews"; "prospero"; "rtsp"; "rtspu"; "rsync";
   "svn"; "svn+ssh"; "sftp"; "nfs"; "git"; "git+ssh"; "ws"; "wss"].

Definition uses_params : list string :=
  [""; "ftp"; "hdl"; "prospero"; "http"; "imap"; "https"; "shttp"; "rtsp";
   "rtspu"; "sip"; "sips"; "mms"; "sftp"; "tel"].

(** [s in l] for a list of strings *)
Definition mem (s : string) (l : list string) : bool :=
  existsb (String.eqb s) l.

Definition scheme_char (c : ascii) : bool :=
  is_alpha c || is_digit c || has_char c "+-.".

(** [_WHATWG_C0_CONTROL_OR_SPACE]: code points 0 to 32. *)
Definition c0_or_space (c : ascii) : bool := (nat_of_ascii c <=? 32)%nat.

(** [_UNSAFE_URL_BYTES_TO_REMOVE]: tab, carriage return, line feed. *)
Definition unsafe_byte (c : ascii) : bool :=
  let n := nat_of_ascii c in
  (n =? 9)%nat || (n =? 13)%nat || (n =? 10)%nat.

Definition lstrip_c0 (s : string) : string := drop_while c0_or_space s.
Definition strip_c0 (s : string) : string :=
  rev (drop_while c0_or_space (rev (drop_while c0_or_space s))).
Definition remove_unsafe (s : string) : string :=
  filter (fun c => negb (unsafe_byte c)) s.

Definition is_ascii (s : string) : bool :=
  forallb (fun c => (nat_of_ascii c <? 128)%nat) s.

Definition netloc_delim (c : ascii) : bool := has_char c "/?#".

(** [_splitnetloc(url, 2)] on a [url] that starts with two slashes. *)
Definition splitnetloc (url : string) : string * string :=
  match url with
  | String _ (String _ rest) => break netloc_delim rest
  | _ => (EmptyString, EmptyString)
  end.

(** The splitting done by [urlsplit(url, scheme)], before any validation of
    the netloc. *)
Definition urlsplit_raw (url scheme : string) : SplitResult :=
  let url := remove_unsafe (lstrip_c0 url) in
  let scheme := remove_unsafe (strip_c0 scheme) in
  let '(scheme, url) :=
    match split_once ":" url with
    | Some (String c pre, post) =>
        if is_alpha c && forallb scheme_char (String c pre)
        then (lower (String c pre), post)
        else (scheme, url)
    | _ => (scheme, url)
    end in
  let '(netloc, url) :=
    if startswith "//" url then splitnetloc url else (EmptyString, url) in
  let '(url, fragment) :=
    match split_once "#" url with
    | Some (u, f) => (u, f)
    | None => (url, EmptyString)
    end in
  let '(url, query) :=
    match split_once "?" url with
    | Some (u, q) => (u, q)
    | None => (url, EmptyString)
    end in
  mkSplit scheme netloc url query fragment.

(** The query component of a URL string. *)
Definition url_query (url : string) : string :=
  s_query (urlsplit_raw url EmptyString).

Section Validation.
(** The two netloc validations of [urlsplit] that rest on the
    [ipaddress] and [unicodedata] modules: [_check_bracketed_netloc]
    (consulted when the netloc has both brackets) and the NFKC test of
    [_checknetloc] (consulted when the netloc is not ASCII).  [false]
    stands for a raised [ValueError]. *)
Variable bracketed_netloc_ok : string -> bool.
Variable nfkc_netloc_ok : string -> bool.

(** The netloc passes the bracket tests and [_checknetloc]. *)
Definition netloc_ok (n : string) : bool :=
  let lb := has_char "[" n in
  let rb := has_char "]" n in
  negb (xorb lb rb)
  && (negb (lb && rb) || bracketed_netloc_ok n)
  && (negb (truthy n) || is_ascii n || nfkc_netloc_ok n).

(** [urlsplit(url, scheme)]; [None] is a [ValueError]. *)
Definition urlsplit (url scheme : string) : option SplitResult :=
  let r := urlsplit_raw url scheme in
  if netloc_ok (s_netloc r) then Some r else None.

(** [_splitparams(url)] *)
Definition splitparams (url : string) : string * string :=
  if has_char "/" url then
    match split_once ";" (after_last "/" url) with
    | Some (a, b) => (upto_last "/" url +:+ a, b)
    | None => (url, EmptyString)
    end
  else
    match split_once ";" url with
    | Some (a, b) => (a, b)
    | None => (url, EmptyString)
    end.

(** [urlparse(url, scheme)] *)
Definition urlparse (url scheme : string) : option ParseResult :=
  r ← urlsplit url scheme;
  let '(url, params) :=
    if mem (s_scheme r) uses_params && has_char ";" (s_path r)
    then splitparams (s_path r)
    else (s_path r, EmptyString) in
  Some (mkParse (s_scheme r) (s_netloc r) url params
                (s_query r) (s_fragment r)).

(** [urlunsplit((scheme, netloc, url, query, fragment))] *)
Definition urlunsplit (scheme netloc url query fragment : string) : string :=
  let url :=
    if truthy netloc
       || (truthy scheme && mem scheme uses_netloc
           && negb (startswith "//" url))
    then "//" +:+ netloc +:+
         (if truthy url && negb (startswith "/" url)
          then "/" +:+ url else url)
    else url in
  let url := if truthy scheme then scheme +:+ ":" +:+ url else url in
  let url := if truthy query then url +:+ "?" +:+ query else url in
  if truthy fragment then url +:+ "#" +:+ fragment else url.

(** [urlunparse((scheme, netloc, url, params, query, fragment))] *)
Definition urlunparse (p : ParseResult) : string :=
  let url :=
    if truthy (params p) then path p +:+ ";" +:+ params p else path p in
  urlunsplit (scheme p) (netloc p) url (query p) (fragment p).

(** [base_parts]: [bpath.split('/')] without a non-empty last item. *)
Definition base_parts (bpath : string) : list string :=
  let parts := split "/" bpath in
  match last parts with
  | Some EmptyString => parts
  | _ => removelast parts
  end.

(** [segments[1:-1] = filter(None, segments[1:-1])] *)
Definition filter_middle (segments : list string) : list string :=
  match segments with
  | x :: r =>
      match last r with
      | Some z => x :: List.filter truthy (removelast r) ++ [z]
      | None => segments
      end
  | [] => []
  end.

(** The loop over [segments] that resolves [.] and [..]. *)
Definition resolve (segments : list string) : list string :=
  fold_left (fun resolved seg =>
               if String.eqb seg ".." then removelast resolved
               else if String.eqb seg "." then resolved
               else resolved ++ [seg])
            segments [].

(** [urljoin(base, url)]; [None] is a [ValueError] of [urlparse]. *)
Definition urljoin (base url : string) : option string :=
  if negb (truthy base) then Some url else
  if negb (truthy url) then Some base else
  b ← urlparse base EmptyString;
  u ← urlparse url (scheme b);
  if negb (String.eqb (scheme u) (scheme b))
     || negb (mem (scheme u) uses_relative)
  then Some url else
  if mem (scheme u) uses_netloc && truthy (netloc u)
  then Some (urlunparse u) else
  let netloc' :=
    if mem (scheme u) uses_netloc then netloc b else netloc u in
  if negb (truthy (path u)) && negb (truthy (params u)) then
    let query' := if truthy (query u) then query u else query b in
    Some (urlunparse (mkParse (scheme u) netloc' (path b) (params b)
                              query' (fragment u)))
  else
    let segments :=
      if startswith "/" (path u) then split "/" (path u)
      else filter_middle (base_parts (path b) ++ split "/" (path u)) in
    let resolved := resolve segments in
    let resolved :=
      match last segments with
      | Some seg =>
          if String.eqb seg "." || String.eqb seg ".."
          then resolved ++ [EmptyString] else resolved
      | None => resolved
      end in
    let joined := join "/" resolved in
    Some (urlunparse (mkParse (scheme u) netloc'
                              (if truthy joined then joined else "/")
                              (params u) (query u) (fragment u))).

End Validation.

(** *** Percent-encoding *)

Definition hex_val (c : ascii) : option nat :=
  let n := nat_of_ascii c in
  if is_digit c then Some (n - 48)
  else if (65 <=? n)%nat && (n <=? 70)%nat then Some (n - 55)
  else if (97 <=? n)%nat && (n <=? 102)%nat then Some (n - 87)
  else None.

(** [unquote(s)]: every [%XX] with two hexadecimal digits becomes the byte
    it denotes; any other [%] is kept. *)
Fixpoint unquote (s : string) : string :=
  match s with
  | EmptyString => EmptyString
  | String c t =>
      if Ascii.eqb c "%" then
        match t with
        | String a (String b t') =>
            match hex_val a, hex_val b with
            | Some x, Some y =>
                String (ascii_of_nat (16 * x + y)) (unquote t')
            | _, _ => String c (unquote t)
            end
        | _ => String c (unquote t)
        end
      else String c (unquote t)
  end.

(** [unquote_plus(s)] *)
Definition unquote_plus (s : string) : string :=
  unquote (replace_char "+" " " s).

(** [_ALWAYS_SAFE] *)
Definition always_safe (c : ascii) : bool :=
  is_alpha c || is_digit c || has_char c "_.-~".

Definition hex_digit (n : nat) : ascii :=
  if (n <? 10)%nat then ascii_of_nat (48 + n) else ascii_of_nat (55 + n).

(** What [quote_plus] makes of one byte. *)
Definition quote_plus_byte (c : ascii) : string :=
  if always_safe c then String c EmptyString
  else if Ascii.eqb c " " then "+"
  else let n := nat_of_ascii c in
       String "%" (String (hex_digit (n / 16))
                          (String (hex_digit (n mod 16)) EmptyString)).

(** [quote_plus(s)] with the default empty [safe] *)
Fixpoint quote_plus (s : string) : string :=
  match s with
  | EmptyString => EmptyString
  | String c t => quote_plus_byte c +:+ quote_plus t
  end.

(** *** Query strings *)

(** A dictionary from parameter names to lists of values, in insertion
    order. *)
Abbreviation dict := (list (string * list string)).

(** One field [name=value] of a query string, as [parse_qsl] reads it with
    [keep_blank_values=False] and [strict_parsing=False]: a field without
    [=] or with nothing after it is skipped. *)
Definition parse_field (name_value : string) : option (string * string) :=
  match split_once "=" name_value with
  | Some (n, v) =>
      if truthy v then Some (unquote_plus n, unquote_plus v) else None
  | None => None
  end.

(** [parse_qsl(qs)] *)
Definition parse_qsl (qs : string) : list (string * string) :=
  if truthy qs then omap parse_field (split "&" qs) else [].

(** The body of the loop of [parse_qs]: append to the list of an existing
    name, or insert a new name at the end. *)
Fixpoint dict_add (name value : string) (d : dict) : dict :=
  match d with
  | [] => [(name, [value])]
  | (k, vs) :: r =>
      if String.eqb k name then (k, vs ++ [value]) :: r
      else (k, vs) :: dict_add name value r
  end.

(** [parse_qs(qs)] *)
Definition parse_qs (qs : string) : dict :=
  fold_left (fun d nv => dict_add (fst nv) (snd nv) d) (parse_qsl qs) [].

(** [d.pop(key, None)], for its effect on [d] *)
Definition pop (key : string) (d : dict) : dict :=
  List.filter (fun kv => negb (String.eqb (fst kv) key)) d.

(** [name in d] *)
Definition has_key (key : string) (d : dict) : bool :=
  existsb (fun kv => String.eqb (fst kv) key) d.

(** [d.get(key)] *)
Fixpoint get (key : string) (d : dict) : option (list string) :=
  match d with
  | [] => None
  | (k, vs) :: r => if String.eqb k key then Some vs else get key r
  end.

(** The mapping that a dictionary is, whatever the order of its keys: two
    dictionaries are equal for Python's [==] when their mappings are. *)
Definition mapping_of (d : dict) : gmap string (list string) := list_to_map d.

(** The fields [k=v] that [urlencode(d, doseq=True)] joins. *)
Definition encode_fields (d : dict) : list string :=
  flat_map (fun kv =>
              map (fun v => quote_plus (fst kv) +:+ "=" +:+ quote_plus v)
                  (snd kv)) d.

(** [urlencode(d, doseq=True)] *)
Definition urlencode (d : dict) : string := join "&" (encode_fields d).

End UrlParse.

(** ** [extract_image_urls] *)

Module Extract.
Import PyStr UrlParse.

(** One element of the parsed document: BeautifulSoup's [Tag], with its name
    and its dictionary of attributes.  The HTML parser itself is an external
    capability; [soup] below is the sequence of tags of the document, in
    document order. *)
Record Tag := mkTag { tag_name : string; tag_attrs : gmap string string }.

(** The [remove_params] dictionary: the keys ['raw_image'] and
    ['no_watermark'] (absent or [True]) and ['additional_params']. *)
Record RemoveParams := mkRemove {
  raw_image : bool;
  no_watermark : bool;
  additional_params : list string }.

(** [[a_tag['href'] for a_tag in soup.find_all('a', href=True)]] *)
Definition anchors (soup : list Tag) : list string :=
  omap (fun t => if String.eqb (tag_name t) "a" then tag_attrs t !! "href"
                 else None) soup.

(** [any(path.lower().endswith(ext) for ext in extensions)], after
    [extensions = [ext.lower() for ext in extensions]] *)
Definition matches_extension (extensions : list string) (path : string) : bool :=
  existsb (fun ext => endswith ext (lower path)) (map lower extensions).

(** The three removal steps applied to [query_dict]. *)
Definition remove_keys (rp : RemoveParams) (query_dict : dict) : dict :=
  let d := if raw_image rp then pop "height" (pop "width" query_dict)
           else query_dict in
  let d := if no_watermark rp then pop "watermark" d else d in
  fold_left (fun d param => pop param d) (additional_params rp) d.

(** [new_query]: the query string rebuilt from the parsed href. *)
Definition new_query (rp : RemoveParams) (p : ParseResult) : string :=
  urlencode (remove_keys rp (parse_qs (query p))).

(** [clean_url]: the href put together again around [new_query]. *)
Definition clean_url (rp : RemoveParams) (p : ParseResult) : string :=
  urlunparse (mkParse (scheme p) (netloc p) (path p) (params p)
                      (new_query rp p) (fragment p)).

Section Extraction.
Variable bracketed_netloc_ok : string -> bool.
Variable nfkc_netloc_ok : string -> bool.

Abbreviation urlparse := (UrlParse.urlparse bracketed_netloc_ok nfkc_netloc_ok).
Abbreviation urljoin := (UrlParse.urljoin bracketed_netloc_ok nfkc_netloc_ok).

(** The test on an href that guards the body of the loop: the marker occurs
    in the href, and the parsed path ends with one of the extensions.
    [None] is the [ValueError] of [urlparse]. *)
Definition selected (extensions : list string) (href : string) : option bool :=
  if contains "/orderfiles/" href then
    p ← urlparse href "";
    Some (matches_extension extensions (path p))
  else Some false.

(** [full_url] for an href: what lines 124 to 154 compute. *)
Definition canonicalize (base_url : string) (rp : RemoveParams)
    (href : string) : option string :=
  p ← urlparse href "";
  urljoin base_url (clean_url rp p).

(** One iteration of the loop over the anchors. *)
Definition visit (base_url : string) (extensions : list string)
    (rp : RemoveParams) (image_urls : gset string) (href : string)
    : option (gset string) :=
  if contains "/orderfiles/" href then
    p ← urlparse href "";
    if matches_extension extensions (path p) then
      full_url ← urljoin base_url (clean_url rp p);
      Some (image_urls ∪ {[full_url]})
    else Some image_urls
  else Some image_urls.

(** The set [image_urls] at the end of the loop. *)
Definition image_url_set (soup : list Tag) (base_url : string)
    (extensions : list string) (rp : RemoveParams) : option (gset string) :=
  foldl (fun acc href => s ← acc; visit base_url extensions rp s href)
        (Some ∅) (anchors soup).

(** [extract_image_urls(html, base_url, extensions, remove_params)], from the
    parsed document.  The order of [list(image_urls)] is not specified by
    Python; [elements] fixes one. *)
Definition extract_image_urls (soup : list Tag) (base_url : string)
    (extensions : list string) (rp : RemoveParams) : option (list string) :=
  s ← image_url_set soup base_url extensions rp;
  Some (elements s).

End Extraction.

(** An anchor element with the given href. *)
Definition a_href (href : string) : Tag := mkTag "a" {[ "href" := href ]}.

End Extract.

(** ** [os.path] (posixpath) *)

Module OsPath.
Import PyStr.

(** [os.path.basename(p)] *)
Definition basename (p : string) : string := after_last "/" p.

(** [os.path.join(a, b)] *)
Definition join (a b : string) : string :=
  if startswith "/" b then b
  else if negb (truthy a) || endswith "/" a then a +:+ b
  else a +:+ "/" +:+ b.

End OsPath.

(** ** [download_image] and the retry decorator *)

Module Download.
Import PyStr UrlParse.

(** A node of the filesystem: a regular file with its bytes, or a
    directory.  Paths are the strings the program builds. *)
Inductive Node := File (content : string) | Dir.

(** What the body of a response does while [iter_content] is consumed and
    written: deliver a chunk, fail with a [RequestException] (connection
    lost), or make [f.write] fail with an [OSError] (disk full). *)
Inductive Step := Chunk (data : string) | ReadFails | WriteFails.

(** What [requests.get(url, stream=True)] does: raise a [RequestException],
    or answer with a status ([raise_for_status] passes or not) and a body. *)
Inductive FetchResult :=
| ConnectionFails
| Response (status_ok : bool) (body : list Step).

(** The environment of one run.  [fetch n url] is the answer to the request
    for [url] made after [n] earlier image requests; [can_open n path] tells
    whether [open(path, 'wb')] succeeds at that point. *)
Record World := mkWorld {
  fetch : nat -> string -> FetchResult;
  can_open : nat -> string -> bool }.

Inductive Exn := RequestException | OtherException | RetryError.

(** A line printed, or logged when a logger is given. *)
Inductive Message :=
| AlreadyExists (local_filename : string)
| Downloaded (local_filename : string)
| FailedToDownload (url : string)
| ErrorDownloading (url : string).

Record State := mkState {
  fs : gmap string Node;
  requests : list string;   (* image URLs requested, oldest first *)
  slept : nat;              (* seconds spent in the waits between attempts *)
  messages : list Message } (* oldest first *).

Inductive Result := Returned | Raised (e : Exn).

Definition say (m : Message) (st : State) : State :=
  mkState (fs st) (requests st) (slept st) (messages st ++ [m]).

Definition request (url : string) (st : State) : State :=
  mkState (fs st) (requests st ++ [url]) (slept st) (messages st).

Definition sleep (seconds : nat) (st : State) : State :=
  mkState (fs st) (requests st) (slept st + seconds) (messages st).

Definition set_fs (f : gmap string Node) (st : State) : State :=
  mkState f (requests st) (slept st) (messages st).

(** [os.path.exists(path)] *)
Definition exists_path (path : string) (f : gmap string Node) : bool :=
  bool_decide (is_Some (f !! path)).

(** [open(path, 'wb')]: the file is created, or truncated. *)
Definition open_wb (path : string) (f : gmap string Node) : gmap string Node :=
  <[path := File EmptyString]> f.

(** [f.write(chunk)] on the file opened at [path]. *)
Definition write (path data : string) (f : gmap string Node) : gmap string Node :=
  match f !! path with
  | Some (File c) => <[path := File (c +:+ data)]> f
  | _ => f
  end.

(** The loop [for chunk in r.iter_content(...): if chunk: f.write(chunk)]:
    the filesystem when the loop ends, and the exception that ended it. *)
Fixpoint write_body (path : string) (body : list Step) (f : gmap string Node)
    : gmap string Node * option Exn :=
  match body with
  | [] => (f, None)
  | Chunk data :: rest =>
      write_body path rest (if truthy data then write path data f else f)
  | ReadFails :: _ => (f, Some RequestException)
  | WriteFails :: _ => (f, Some OtherException)
  end.

(** The bytes that a sequence of chunks carries. *)
Definition received (chunks : list string) : string :=
  foldr String.append EmptyString chunks.

(** The exception with which a step ends the loop, if it does. *)
Definition step_failure (s : Step) : option Exn :=
  match s with
  | Chunk _ => None
  | ReadFails => Some RequestException
  | WriteFails => Some OtherException
  end.

(** The message of the handler that catches [e] before re-raising it. *)
Definition failure_message (e : Exn) (url : string) : Message :=
  match e with
  | RequestException => FailedToDownload url
  | _ => ErrorDownloading url
  end.

Definition fail (e : Exn) (url : string) (st : State) : State * Result :=
  (say (failure_message e url) st, Raised e).

Section Attempt.
Variable bracketed_netloc_ok : string -> bool.
Variable nfkc_netloc_ok : string -> bool.
Variable w : World.

Abbreviation urlparse := (UrlParse.urlparse bracketed_netloc_ok nfkc_netloc_ok).

(** [local_filename]; [None] is the [ValueError] of [urlparse]. *)
Definition local_filename (url output_dir : string) : option string :=
  p ← urlparse url "";
  Some (OsPath.join output_dir (OsPath.basename (path p))).

(** The body of [download_image]: one attempt. *)
Definition attempt (url output_dir : string) (st : State) : State * Result :=
  match local_filename url output_dir with
  | None => fail OtherException url st
  | Some local =>
      if exists_path local (fs st) then (say (AlreadyExists local) st, Returned)
      else
        let n := length (requests st) in
        let st := request url st in
        match fetch w n url with
        | ConnectionFails => fail RequestException url st
        | Response false _ => fail RequestException url st
        | Response true body =>
            if can_open w n local then
              let '(f, e) := write_body local body (open_wb local (fs st)) in
              match e with
              | Some e => fail e url (set_fs f st)
              | None => (say (Downloaded local) (set_fs f st), Returned)
              end
            else fail OtherException url st
        end
  end.

(** [stop_after_attempt(3)] and [wait_fixed(2)] *)
Definition stop_after_attempt : nat := 3.
Definition wait_fixed : nat := 2.

(** The [@retry] decorator of tenacity around an operation, with
    [remaining] attempts left: an attempt that raises is followed by a wait
    and a new attempt, unless it was the last one, after which [RetryError]
    is raised. *)
Fixpoint retry (remaining : nat) (op : State -> State * Result) (st : State)
    : State * Result :=
  match remaining with
  | 0 => (st, Raised RetryError)
  | S k =>
      match op st with
      | (st', Returned) => (st', Returned)
      | (st', Raised _) =>
          match k with
          | 0 => (st', Raised RetryError)
          | S _ => retry k op (sleep wait_fixed st')
          end
      end
  end.

(** [download_image(url, output_dir, headers, logger)], decorated. *)
Definition download_image (url output_dir : string) (st : State)
    : State * Result :=
  retry stop_after_attempt (attempt url output_dir) st.

(** The sequential loop of [main]: an exception that [download_image]
    raises leaves the loop. *)
Fixpoint download_sequential (urls : list string) (output_dir : string)
    (st : State) : State * Result :=
  match urls with
  | [] => (st, Returned)
  | url :: rest =>
      match download_image url output_dir st with
      | (st', Returned) => download_sequential rest output_dir st'
      | (st', Raised e) => (st', Raised e)
      end
  end.

(** The parallel branch of [main]: every submitted call runs to its end and
    its exception stays in its future, which the loop over [as_completed]
    never inspects.  The calls are taken in submission order, which is one of
    the schedules of the pool. *)
Fixpoint download_parallel (urls : list string) (output_dir : string)
    (st : State) : State * Result :=
  match urls with
  | [] => (st, Returned)
  | url :: rest =>
      download_parallel rest output_dir (download_image url output_dir st).1
  end.

End Attempt.

End Download.

(** ** [main] *)

Module Main.
Import PyStr UrlParse Extract Download.

(** The parsed command line. *)
Record Args := mkArgs {
  order_id : Z;
  extensions : list string;
  output : string;
  base_url : string;
  remove_params : option (list string);
  arg_raw_image : bool;
  arg_no_watermark : bool;
  parallel : bool;
  log : bool }.

(** The portal as the run sees it: the answer to the request for the listing
    page ([None] is a [RequestException]), the HTML parser, and the image
    server with the local disk. *)
Record Env := mkEnv {
  page : string -> option string;
  BeautifulSoup : string -> list Tag;
  world : World }.

(** [get_page_url(base_url, order_id)] *)
Definition get_page_url (base_url : string) (order_id : Z) : string :=
  base_url +:+ "/backend/general/photos/seller?orderid=" +:+ pretty order_id.

(** [get_html_content(url, headers)] *)
Definition get_html_content (env : Env) (url : string) : string :=
  match page env url with
  | Some text => text
  | None => EmptyString
  end.

(** [os.makedirs(path, exist_ok=True)]; [None] is the [FileExistsError]
    raised when the path is a regular file. *)
Definition makedirs (path : string) (f : gmap string Node)
    : option (gmap string Node) :=
  match f !! path with
  | Some (File _) => None
  | Some Dir => Some f
  | None => Some (<[path := Dir]> f)
  end.

(** The dictionary [remove_params] that [main] builds from the flags. *)
Definition removal_rules (args : Args) : RemoveParams :=
  mkRemove (arg_raw_image args) (arg_no_watermark args)
           (match remove_params args with
            | Some (x :: l) => x :: l
            | _ => []
            end).

Section Run.
Variable bracketed_netloc_ok : string -> bool.
Variable nfkc_netloc_ok : string -> bool.

Abbreviation urlparse := (UrlParse.urlparse bracketed_netloc_ok nfkc_netloc_ok).
Abbreviation extract_image_urls :=
  (Extract.extract_image_urls bracketed_netloc_ok nfkc_netloc_ok).
Abbreviation download_sequential :=
  (Download.download_sequential bracketed_netloc_ok nfkc_netloc_ok).
Abbreviation download_parallel :=
  (Download.download_parallel bracketed_netloc_ok nfkc_netloc_ok).

(** [main()]: the state at the end of the process and its exit status.
    [sys.exit(1)] and an exception that leaves [main] both give status 1;
    reaching the end of [main] gives 0. *)
Definition main (env : Env) (args : Args) (st : State) : State * nat :=
  let page_url := get_page_url (base_url args) (order_id args) in
  match urlparse page_url "" with
  | None => (st, 1)
  | Some parsed_page_url =>
      let base_url :=
        scheme parsed_page_url +:+ "://" +:+ netloc parsed_page_url in
      match makedirs (output args) (fs st) with
      | None => (st, 1)
      | Some f =>
          let st := set_fs f st in
          let html_content := get_html_content env page_url in
          if negb (truthy html_content) then (st, 1) else
          match extract_image_urls (BeautifulSoup env html_content) base_url
                                   (extensions args) (removal_rules args) with
          | None => (st, 1)
          | Some [] => (st, 1)
          | Some image_urls =>
              let '(st', r) :=
                if parallel args
                then download_parallel (world env) image_urls (output args) st
                else download_sequential (world env) image_urls (output args) st in
              match r with
              | Returned => (st', 0)
              | Raised _ => (st', 1)
              end
          end
      end
  end.

End Run.

End Main.

(** ** Notions used to state the properties *)

Module Shape.
Import PyStr UrlParse.

(** The characters that [quote_plus] can produce. *)
Definition quoted_char (c : ascii) : bool :=
  always_safe c || has_char c "+%".

(** The characters of a query string made by [urlencode]. *)
Definition query_char (c : ascii) : bool :=
  quoted_char c || has_char c "=&".

(** The (name, value) pairs of a dictionary, in the order in which
    [urlencode] writes them. *)
Definition items (d : dict) : list (string * string) :=
  flat_map (fun kv => map (pair (fst kv)) (snd kv)) d.

(** What every dictionary made by [parse_qs] is: its keys are distinct,
    and each key has a non-empty list of non-empty values. *)
Definition well_formed (d : dict) : Prop :=
  NoDup (map fst d) /\
  Forall (fun kv => snd kv <> [] /\ Forall (fun v => v <> "") (snd kv)) d.

(** No [?] and no [#]: the text can stand in a URL before the query. *)
Definition delimiter_free (s : string) : bool :=
  negb (has_char "?" s) && negb (has_char "#" s).

(** The text between the first [?] and the first [#] behind it. *)
Definition query_part (s : string) : string :=
  let u := match split_once "#" s with Some (u, _) => u | None => s end in
  match split_once "?" u with Some (_, q) => q | None => EmptyString end.

(** The end of a URL that [urlunsplit] writes for a query and a fragment. *)
Definition url_tail (query fragment : string) : string :=
  (if truthy query then "?" +:+ query else EmptyString)
  +:+ (if truthy fragment then "#" +:+ fragment else EmptyString).

(** The pieces of a parsed URL that stand before the query. *)
Definition head_free (p : ParseResult) : Prop :=
  delimiter_free (scheme p) = true /\ delimiter_free (netloc p) = true /\
  delimiter_free (path p) = true /\ delimiter_free (params p) = true.

(** The keys that the rules name, in the order in which they are popped. *)
Definition removed_keys (rp : Extract.RemoveParams) : list string :=
  (if Extract.raw_image rp then ["width"; "height"] else [])
  ++ (if Extract.no_watermark rp then ["watermark"] else [])
  ++ Extract.additional_params rp.

End Shape.

(** ** Concrete runs *)

Module Scenarios.
Import PyStr UrlParse Extract Download Main.

(** A validation that accepts every netloc: none of the hrefs below has a
    bracket or a non-ASCII character, so it is never consulted. *)
Definition lenient (netloc : string) : bool := true.

Definition portal : string := "https://portal.diakrit.com".

Definition no_rules : RemoveParams := mkRemove false false [].
Definition raw_only : RemoveParams := mkRemove true false [].
Definition raw_no_watermark : RemoveParams := mkRemove true true [].

(** The two anchors of the scenario of section 8 of the specification. *)
Definition two_widths : list Tag :=
  [a_href "/orderfiles/a.jpg?width=800&watermark=1";
   a_href "/orderfiles/a.jpg?width=400&watermark=1"].

(** Anchors of three extensions. *)
Definition three_extensions : list Tag :=
  [a_href "/orderfiles/a.jpg"; a_href "/orderfiles/b.png";
   a_href "/orderfiles/c.gif"].

Definition empty_state : State := mkState ∅ [] 0 [].

(** An image server that never answers. *)
Definition dead_server : World :=
  mkWorld (fun _ _ => ConnectionFails) (fun _ _ => true).

(** An image server that loses the connection after the first chunk of
    every body. *)
Definition flaky_server : World :=
  mkWorld (fun _ _ => Response true [Chunk "abc"; ReadFails; Chunk "def"])
          (fun _ _ => true).

(** An image server that never answers for [a.jpg] and delivers every other
    image in two chunks. *)
Definition a_down_server : World :=
  mkWorld (fun _ url => if endswith "/a.jpg" url then ConnectionFails
                        else Response true [Chunk "abc"; Chunk "def"])
          (fun _ _ => true).

(** An image server that delivers every image in two chunks. *)
Definition good_server : World :=
  mkWorld (fun _ _ => Response true [Chunk "abc"; Chunk "def"])
          (fun _ _ => true).

(** A listing page with two images, on a portal whose image server is
    [w]. *)
Definition listing (w : World) : Env :=
  mkEnv (fun _ => Some "<html>listing</html>")
        (fun _ => [a_href "/orderfiles/a.jpg"; a_href "/orderfiles/b.jpg"])
        w.

(** The two image URLs of [listing], and where they are stored. *)
Definition a_url : string := "https://portal.diakrit.com/orderfiles/a.jpg".
Definition b_url : string := "https://portal.diakrit.com/orderfiles/b.jpg".
Definition out_dir : string := "downloaded_images".
Definition a_local : string := "downloaded_images/a.jpg".
Definition b_local : string := "downloaded_images/b.jpg".

(** A disk on which [a.jpg] is already there. *)
Definition a_present : State :=
  mkState {[ a_local := File "old bytes" ]} [] 0 [].

Definition sequential_args : Args :=
  mkArgs 13011948 [".jpg"] "downloaded_images" portal None false false
         false false.

Definition parallel_args : Args :=
  mkArgs 13011948 [".jpg"] "downloaded_images" portal None false false
         true false.

(** Hrefs with dimension keys in several casings and orders. *)
Definition mixed_case_href : string :=
  "/orderfiles/a.jpg?Width=1&height=2&x=3&width=800".
Definition capital_width_href : string := "/orderfiles/a.jpg?Width=800".

(** A base URL that carries a query of its own, an href that is only a
    fragment, and a list of extensions with the empty extension. *)
Definition base_with_query : string := "https://h/p?width=9".
Definition fragment_href : string := "#/orderfiles/".

(** The same two parameters in two orders. *)
Definition ab_href : string := "/orderfiles/a.jpg?a=1&b=2".
Definition ba_href : string := "/orderfiles/a.jpg?b=2&a=1".

(** The same parameters, with the keys first met in the same order. *)
Definition aba_href : string := "/orderfiles/a.jpg?a=1&b=2&a=3".
Definition aab_href : string := "/orderfiles/a.jpg?a=1&a=3&b=2".

(** An href with a blank-valued parameter, and the same without it. *)
Definition blank_href : string := "/orderfiles/a.jpg?watermark=".
Definition plain_href : string := "/orderfiles/a.jpg".

(** The marker in the query only; an extension without its dot. *)
Definition marker_in_query_href : string := "/files/a.jpg?from=/orderfiles/".
Definition dotless_href : string := "/orderfiles/notjpg".

End Scenarios.

(** ** Notions used to state further properties *)

Module Views.
Import PyStr UrlParse Extract Download.

(** The values that a list of (name, value) pairs gives to a name, in the
    order of the list. *)
Definition values_of (k : string) (l : list (string * string)) : list string :=
  map snd (List.filter (fun nv => String.eqb (fst nv) k) l).

(** The request does not get a success status: [requests.get] or
    [raise_for_status] raises. *)
Definition refused (r : FetchResult) : bool :=
  match r with
  | ConnectionFails => true
  | Response status_ok _ => negb status_ok
  end.

Section Validation.
Variable bracketed_netloc_ok : string -> bool.
Variable nfkc_netloc_ok : string -> bool.

(** The body of the loop of [extract_image_urls] raises for an href:
    [urlparse] rejects the href, or the href is selected and [urljoin]
    raises. *)
Definition visit_raises (base_url : string) (extensions : list string)
    (rp : RemoveParams) (href : string) : Prop :=
  Extract.selected bracketed_netloc_ok nfkc_netloc_ok extensions href = None \/
  (Extract.selected bracketed_netloc_ok nfkc_netloc_ok extensions href
   = Some true /\
   Extract.canonicalize bracketed_netloc_ok nfkc_netloc_ok base_url rp href
   = None).

(** The message is one that a call of [download_image] for [url] prints:
    it names the URL, or the local filename of the URL. *)
Definition reports (url output_dir : string) (m : Message) : Prop :=
  match m with
  | AlreadyExists l | Downloaded l =>
      Download.local_filename bracketed_netloc_ok nfkc_netloc_ok
        url output_dir = Some l
  | FailedToDownload u | ErrorDownloading u => u = url
  end.

End Validation.

End Views.

(** ** Further concrete runs *)

Module Cases.
Import PyStr UrlParse Extract Download Main Scenarios.

(** An image server that answers every request with an error status. *)
Definition refusing_server : World :=
  mkWorld (fun _ _ => Response false []) (fun _ _ => true).

(** An href whose netloc opens a bracket and does not close it. *)
Definition bracket_href : string := "//[/orderfiles/b.jpg".

(** The two URLs of one image in two widths. *)
Definition wide_url : string :=
  "https://portal.diakrit.com/orderfiles/a.jpg?width=800&watermark=1".
Definition narrow_url : string :=
  "https://portal.diakrit.com/orderfiles/a.jpg?width=400&watermark=1".

(** An href with a dimension and one more parameter. *)
Definition sized_href : string := "/orderfiles/a.jpg?width=1&x=3".

(** An href with a watermark and two more parameters, and rules that name
    the watermark and one of them. *)
Definition marked_href : string := "/orderfiles/a.jpg?watermark=1&foo=2&x=3".
Definition watermark_and_foo : RemoveParams := mkRemove false true ["foo"].

(** A dictionary with a repeated name and a value with a space. *)
Definition two_names : dict := [("a", ["1"; "2"]); ("b", ["x y"])].

(** A sequential run with [--raw_image] over a listing of one image in two
    widths. *)
Definition raw_args : Args :=
  mkArgs 13011948 [".jpg"] "downloaded_images" portal None true false
         false false.
Definition sized_listing (w : World) : Env :=
  mkEnv (fun _ => Some "<html>listing</html>") (fun _ => two_widths) w.

(** An image server that answers every request, beside a disk on which no
    file can be opened for writing. *)
Definition read_only_disk : World :=
  mkWorld (fun _ _ => Response true [Chunk "abc"]) (fun _ _ => false).

(** Rules that name the three keys of the flags by hand. *)
Definition by_hand : RemoveParams :=
  mkRemove false false ["watermark"; "height"; "width"].

(** A portal whose listing page cannot be fetched. *)
Definition silent_portal : Env :=
  mkEnv (fun _ => None) (fun _ => []) dead_server.

(** The listing page of the default portal, parsed. *)
Definition parsed_page : ParseResult :=
  mkParse "https" "portal.diakrit.com" "/backend/general/photos/seller" ""
          "orderid=13011948" "".

End Cases.

(** * Properties *)

(** ** Strings *)

Module StrFacts.
Import PyStr.

Lemma append_nil_l (s : string) : "" +:+ s = s.
Proof. reflexivity. Qed.

Lemma append_cons (a : ascii) (s t : string) :
  String a s +:+ t = String a (s +:+ t).
Proof. reflexivity. Qed.

Lemma append_nil_r (s : string) : s +:+ "" = s.
Proof. induction s as [|a s IH]; [done|]. by rewrite append_cons, IH. Qed.

Lemma append_assoc (s t u : string) : (s +:+ t) +:+ u = s +:+ (t +:+ u).
Proof. induction s as [|a s IH]; [done|]. by rewrite !append_cons, IH. Qed.

Lemma truthy_true (s : string) : truthy s = true <-> s <> "".
Proof. by destruct s. Qed.

Lemma truthy_false (s : string) : truthy s = false <-> s = "".
Proof. by destruct s. Qed.

Lemma truthy_app (s t : string) : truthy (s +:+ t) = truthy s || truthy t.
Proof. by destruct s. Qed.

Lemma has_char_app (c : ascii) (s t : string) :
  has_char c (s +:+ t) = has_char c s || has_char c t.
Proof.
  induction s as [|a s IH]; [done|].
  rewrite append_cons. simpl. by rewrite IH, orb_assoc.
Qed.

Lemma forallb_app (f : ascii -> bool) (s t : string) :
  forallb f (s +:+ t) = forallb f s && forallb f t.
Proof.
  induction s as [|a s IH]; [done|].
  rewrite append_cons. simpl. by rewrite IH, andb_assoc.
Qed.

Lemma forallb_impl (f g : ascii -> bool) (s : string) :
  (forall c, f c = true -> g c = true) ->
  forallb f s = true -> forallb g s = true.
Proof.
  intros Hfg. induction s as [|a s IH]; [done|]. simpl.
  intros [Ha Hs]%andb_true_iff. rewrite (Hfg _ Ha). by apply IH.
Qed.

(** A string all of whose characters satisfy [f] has no character that
    fails it. *)
Lemma forallb_has_char (f : ascii -> bool) (c : ascii) (s : string) :
  f c = false -> forallb f s = true -> has_char c s = false.
Proof.
  intros Hc. induction s as [|a s IH]; [done|]. simpl.
  intros [Ha Hs]%andb_true_iff. rewrite (IH Hs), orb_false_r.
  apply Ascii.eqb_neq. intros ->. congruence.
Qed.

Lemma filter_app (f : ascii -> bool) (s t : string) :
  filter f (s +:+ t) = filter f s +:+ filter f t.
Proof.
  induction s as [|a s IH]; [done|].
  rewrite append_cons. simpl. destruct (f a); by rewrite IH.
Qed.

Lemma filter_id (f : ascii -> bool) (s : string) :
  forallb f s = true -> filter f s = s.
Proof.
  induction s as [|a s IH]; [done|]. simpl.
  intros [-> Hs]%andb_true_iff. by rewrite IH.
Qed.

Lemma has_char_filter (f : ascii -> bool) (c : ascii) (s : string) :
  has_char c s = false -> has_char c (filter f s) = false.
Proof.
  induction s as [|a s IH]; [done|]. simpl.
  intros [Ha Hs]%orb_false_iff. destruct (f a); simpl; [rewrite Ha|]; auto.
Qed.

Lemma has_char_drop_while (f : ascii -> bool) (c : ascii) (s : string) :
  has_char c s = false -> has_char c (drop_while f s) = false.
Proof.
  induction s as [|a s IH]; [done|]. simpl.
  intros H. destruct (f a); [|done].
  apply IH. by apply orb_false_iff in H as [_ ?].
Qed.

Lemma split_once_none (c : ascii) (s : string) :
  has_char c s = false -> split_once c s = None.
Proof.
  induction s as [|a s IH]; [done|]. simpl.
  intros [-> Hs]%orb_false_iff. by rewrite IH.
Qed.

Lemma split_once_app (c : ascii) (s t : string) :
  has_char c s = false -> split_once c (s +:+ String c t) = Some (s, t).
Proof.
  induction s as [|a s IH]; simpl.
  - intros _. by rewrite Ascii.eqb_refl.
  - intros [Ha Hs]%orb_false_iff. by rewrite Ha, IH.
Qed.

Lemma split_once_Some (c : ascii) (s u v : string) :
  split_once c s = Some (u, v) ->
  s = u +:+ String c v /\ has_char c u = false.
Proof.
  revert u. induction s as [|a s IH]; intros u; [done|]. simpl.
  destruct (Ascii.eqb a c) eqn:Hac.
  - intros [= <- <-]. apply Ascii.eqb_eq in Hac as ->. done.
  - destruct (split_once c s) as [[u' v']|]; [|done].
    intros [= <- <-]. destruct (IH u' eq_refl) as [-> Hu].
    split; [done|]. simpl. by rewrite Hac.
Qed.

Lemma rev_onto_app (s t acc : string) :
  rev_onto (s +:+ t) acc = rev_onto t (rev_onto s acc).
Proof.
  revert acc. induction s as [|a s IH]; intros acc; [done|].
  rewrite append_cons. cbn [rev_onto]. apply IH.
Qed.

Lemma rev_onto_acc (s acc : string) : rev_onto s acc = rev s +:+ acc.
Proof.
  unfold rev. revert acc. induction s as [|a s IH]; intros acc.
  - cbn [rev_onto]. by rewrite append_nil_l.
  - cbn [rev_onto]. rewrite (IH (String a "")), IH.
    by rewrite append_assoc, append_cons, append_nil_l.
Qed.

Lemma startswith_app (p s : string) : startswith p (p +:+ s) = true.
Proof.
  induction p as [|a p IH]; [done|].
  rewrite append_cons. cbn [startswith]. by rewrite Ascii.eqb_refl.
Qed.

(** A string ends with each of its suffixes. *)
Lemma endswith_app (x p : string) : endswith p (x +:+ p) = true.
Proof.
  unfold endswith. unfold rev at 2. rewrite rev_onto_app, rev_onto_acc.
  apply startswith_app.
Qed.

(** Membership in a list that is written out. *)
Ltac in_list := repeat first [left | right].

End StrFacts.

Module QueryFacts.
Import PyStr UrlParse Shape StrFacts.

Lemma unquote_plus_byte (c : ascii) (r : string) :
  unquote_plus (quote_plus_byte c +:+ r) = String c (unquote_plus r).
Proof. by destruct c as [[] [] [] [] [] [] [] []]. Qed.

(** Decoding what [quote_plus] encoded gives the text back. *)
Lemma unquote_plus_quote_plus (s : string) : unquote_plus (quote_plus s) = s.
Proof.
  induction s as [|c s IH]; [done|]. simpl.
  by rewrite unquote_plus_byte, IH.
Qed.

Lemma quote_plus_byte_chars (c : ascii) :
  forallb quoted_char (quote_plus_byte c) = true.
Proof. by destruct c as [[] [] [] [] [] [] [] []]. Qed.

Lemma quote_plus_chars (s : string) : forallb quoted_char (quote_plus s) = true.
Proof.
  induction s as [|c s IH]; [done|]. simpl.
  by rewrite forallb_app, quote_plus_byte_chars, IH.
Qed.

Lemma quote_plus_no_char (c : ascii) (s : string) :
  quoted_char c = false -> has_char c (quote_plus s) = false.
Proof.
  intros Hc. apply (forallb_has_char quoted_char); [done|].
  apply quote_plus_chars.
Qed.

Lemma truthy_quote_plus (s : string) : truthy (quote_plus s) = truthy s.
Proof.
  destruct s as [|c s]; [done|]. simpl. rewrite truthy_app.
  by destruct c as [[] [] [] [] [] [] [] []].
Qed.

(** A field written by [urlencode] is read back by [parse_qsl], unless its
    value is empty. *)
Lemma parse_field_encoded (k v : string) :
  parse_field (quote_plus k +:+ "=" +:+ quote_plus v)
  = if truthy v then Some (k, v) else None.
Proof.
  unfold parse_field.
  change ("=" +:+ quote_plus v) with (String "=" (quote_plus v)).
  rewrite (split_once_app "=") by by apply quote_plus_no_char.
  by rewrite truthy_quote_plus, !unquote_plus_quote_plus.
Qed.

End QueryFacts.

Module DictFacts.
Import PyStr UrlParse Shape StrFacts QueryFacts.

Lemma split_no_sep (c : ascii) (s : string) :
  has_char c s = false -> split c s = [s].
Proof.
  induction s as [|a s IH]; [done|]. simpl.
  intros [-> Hs]%orb_false_iff. by rewrite IH.
Qed.

Lemma split_app (c : ascii) (s t : string) :
  has_char c s = false -> split c (s +:+ String c t) = s :: split c t.
Proof.
  induction s as [|a s IH]; simpl.
  - intros _. by rewrite Ascii.eqb_refl.
  - intros [-> Hs]%orb_false_iff. by rewrite IH.
Qed.

(** Splitting what was joined gives the pieces back. *)
Lemma split_join (c : ascii) (l : list string) :
  l <> [] ->
  Forall (fun s => has_char c s = false) l ->
  split c (join (String c "") l) = l.
Proof.
  induction l as [|x l IH]; [done|]. intros _ Hl.
  apply Forall_cons in Hl as [Hx Hl].
  destruct l as [|y l].
  - simpl. by apply split_no_sep.
  - change (join (String c "") (x :: y :: l))
      with (x +:+ String c (join (String c "") (y :: l))).
    rewrite split_app by done. f_equal. by apply IH.
Qed.

Lemma parse_qsl_split (qs : string) :
  parse_qsl qs = omap parse_field (split "&" qs).
Proof. unfold parse_qsl. by destruct qs. Qed.

Lemma parse_qsl_join (fields : list string) :
  Forall (fun s => has_char "&" s = false) fields ->
  parse_qsl (join "&" fields) = omap parse_field fields.
Proof.
  intros Hf. destruct fields as [|x l]; [done|].
  by rewrite parse_qsl_split, split_join.
Qed.

Lemma encode_fields_chars (d : dict) :
  Forall (fun s => forallb query_char s = true) (encode_fields d).
Proof.
  unfold encode_fields. apply Forall_flat_map, Forall_forall.
  intros [k vs] _. apply Forall_map, Forall_forall. intros v _. simpl.
  assert (Hq : forall s, forallb query_char (quote_plus s) = true).
  { intros s. apply (forallb_impl quoted_char); [|apply quote_plus_chars].
    intros c Hc. unfold query_char. by rewrite Hc. }
  rewrite !forallb_app. simpl. by rewrite !Hq.
Qed.

Lemma encode_fields_no_amp (d : dict) :
  Forall (fun s => has_char "&" s = false) (encode_fields d).
Proof.
  unfold encode_fields. apply Forall_flat_map, Forall_forall.
  intros [k vs] _. apply Forall_map, Forall_forall. intros v _. simpl.
  rewrite !has_char_app. simpl.
  by rewrite !quote_plus_no_char.
Qed.

Lemma omap_parse_values (k : string) (vs : list string) :
  Forall (fun v => v <> "") vs ->
  omap parse_field
       (map (fun v => quote_plus k +:+ "=" +:+ quote_plus v) vs)
  = map (pair k) vs.
Proof.
  induction vs as [|v vs IH]; [done|]. intros [Hv Hvs]%Forall_cons.
  cbn [map omap list_omap]. rewrite parse_field_encoded.
  apply truthy_true in Hv as ->. by rewrite <- IH.
Qed.

Lemma omap_parse_encode (d : dict) :
  Forall (fun kv => Forall (fun v => v <> "") (snd kv)) d ->
  omap parse_field (encode_fields d) = items d.
Proof.
  unfold encode_fields, items.
  induction d as [|[k vs] d IH]; [done|]. intros [Hvs Hd]%Forall_cons.
  cbn [flat_map fst snd] in *.
  by rewrite omap_app, IH, omap_parse_values.
Qed.

(** Reading what [urlencode] wrote gives the pairs of the dictionary. *)
Lemma parse_qsl_urlencode (d : dict) :
  Forall (fun kv => Forall (fun v => v <> "") (snd kv)) d ->
  parse_qsl (urlencode d) = items d.
Proof.
  intros Hd. unfold urlencode.
  rewrite parse_qsl_join by apply encode_fields_no_amp.
  by apply omap_parse_encode.
Qed.

Lemma has_key_false (k : string) (d : dict) :
  has_key k d = false <-> k ∉ map fst d.
Proof.
  unfold has_key. induction d as [|[k' vs] d IH]; simpl.
  - split; [intros _; apply not_elem_of_nil|done].
  - rewrite orb_false_iff, IH, not_elem_of_cons, String.eqb_neq.
    split; intros [? ?]; split; congruence.
Qed.

Lemma has_key_true (k : string) (d : dict) :
  has_key k d = true <-> k ∈ map fst d.
Proof.
  destruct (has_key k d) eqn:H.
  - split; [intros _|done]. destruct (decide (k ∈ map fst d)); [done|].
    apply has_key_false in n. congruence.
  - apply has_key_false in H. split; [done|]. intros; done.
Qed.

Lemma dict_add_new (k v : string) (d : dict) :
  k ∉ map fst d -> dict_add k v d = d ++ [(k, [v])].
Proof.
  induction d as [|[k' vs] d IH]; [done|]. simpl.
  intros [Hne Hd]%not_elem_of_cons.
  apply not_eq_sym, String.eqb_neq in Hne as ->. by rewrite IH.
Qed.

Lemma dict_add_last (k v : string) (vs : list string) (d : dict) :
  k ∉ map fst d -> dict_add k v (d ++ [(k, vs)]) = d ++ [(k, vs ++ [v])].
Proof.
  induction d as [|[k' vs'] d IH]; simpl.
  - intros _. by rewrite String.eqb_refl.
  - intros [Hne Hd]%not_elem_of_cons.
    apply not_eq_sym, String.eqb_neq in Hne as ->. by rewrite IH.
Qed.

Lemma dict_add_keys (k v : string) (d : dict) :
  map fst (dict_add k v d)
  = if has_key k d then map fst d else map fst d ++ [k].
Proof.
  unfold has_key. induction d as [|[k' vs] d IH]; [done|]. simpl.
  destruct (String.eqb k' k); [done|]. simpl. rewrite IH.
  by destruct (existsb _ d).
Qed.

Lemma dict_add_well_formed (k v : string) (d : dict) :
  v <> "" -> well_formed d -> well_formed (dict_add k v d).
Proof.
  intros Hv [Hnd Hvs]. split.
  - rewrite dict_add_keys. destruct (has_key k d) eqn:Hk; [done|].
    apply NoDup_app. split_and!; [done| |apply NoDup_singleton].
    intros x Hx ->%list_elem_of_singleton. by apply has_key_false in Hk.
  - clear Hnd. induction d as [|[k' vs] d IH]; simpl.
    + repeat constructor; simpl; [done|]. by intros ->.
    + apply Forall_cons in Hvs as [[Hne Hall] Hd].
      destruct (String.eqb k' k).
      * constructor; [|done]. simpl. split.
        -- by destruct vs.
        -- apply Forall_app. split; [done|]. by constructor.
      * constructor; [done|]. by apply IH.
Qed.

End DictFacts.

Module RoundTrip.
Import PyStr UrlParse Extract Shape StrFacts QueryFacts DictFacts.

Lemma fold_values (k : string) (vs l : list string) (d : dict) :
  k ∉ map fst d ->
  fold_left (fun d nv => dict_add (fst nv) (snd nv) d) (map (pair k) vs)
            (d ++ [(k, l)])
  = d ++ [(k, l ++ vs)].
Proof.
  intros Hk. revert l. induction vs as [|v vs IH]; intros l; simpl.
  - by rewrite List.app_nil_r.
  - rewrite dict_add_last by done. rewrite IH. by rewrite <- (assoc_L (++)).
Qed.

Lemma fold_items (d2 d1 : dict) :
  NoDup (map fst (d1 ++ d2)) ->
  Forall (fun kv => snd kv <> []) d2 ->
  fold_left (fun d nv => dict_add (fst nv) (snd nv) d) (items d2) d1
  = d1 ++ d2.
Proof.
  revert d1. induction d2 as [|[k vs] d2 IH]; intros d1 Hnd Hvs.
  - by rewrite List.app_nil_r.
  - apply Forall_cons in Hvs as [Hne Hvs]. simpl in Hne.
    destruct vs as [|v vs]; [done|].
    assert (Hk : k ∉ map fst d1).
    { rewrite map_app in Hnd. apply NoDup_app in Hnd as (_ & Hdisj & _).
      intros Hin. apply (Hdisj _ Hin). simpl. left. }
    unfold items. cbn [flat_map fst snd map]. rewrite fold_left_app.
    cbn [fold_left fst snd].
    rewrite dict_add_new by done. rewrite fold_values by done.
    fold (items d2). rewrite IH; [by rewrite <- (assoc_L (++))| |done].
    by rewrite <- (assoc_L (++)).
Qed.

(** A well-formed dictionary is what [parse_qs] reads in what [urlencode]
    wrote of it. *)
Lemma parse_qs_urlencode (d : dict) :
  well_formed d -> parse_qs (urlencode d) = d.
Proof.
  intros [Hnd Hvs]. unfold parse_qs. rewrite parse_qsl_urlencode.
  - apply (fold_items d []); [done|].
    eapply Forall_impl; [exact Hvs|]. by intros kv [? _].
  - eapply Forall_impl; [exact Hvs|]. by intros kv [_ ?].
Qed.

Lemma unquote_cons (c : ascii) (s : string) : unquote (String c s) <> "".
Proof. simpl. repeat case_match; done. Qed.

Lemma unquote_plus_nonempty (s : string) : s <> "" -> unquote_plus s <> "".
Proof. destruct s; [done|]. intros _. apply unquote_cons. Qed.

Lemma parse_field_value (s n v : string) :
  parse_field s = Some (n, v) -> v <> "".
Proof.
  unfold parse_field. destruct (split_once "=" s) as [[n' v']|]; [|done].
  destruct (truthy v') eqn:Hv; [|done]. intros [= <- <-].
  by apply unquote_plus_nonempty, truthy_true.
Qed.

(** [parse_qsl] keeps no pair with a blank value. *)
Lemma parse_qsl_values (qs : string) :
  Forall (fun nv => snd nv <> "") (parse_qsl qs).
Proof.
  rewrite parse_qsl_split. apply Forall_forall. intros [n v] Hin.
  apply list_elem_of_omap in Hin as (s & _ & Hs).
  by apply parse_field_value in Hs.
Qed.

Lemma well_formed_nil : well_formed [].
Proof. split; constructor. Qed.

Lemma fold_dict_add_well_formed (l : list (string * string)) (d : dict) :
  Forall (fun nv => snd nv <> "") l ->
  well_formed d ->
  well_formed (fold_left (fun d nv => dict_add (fst nv) (snd nv) d) l d).
Proof.
  revert d. induction l as [|[n v] l IH]; intros d Hl Hd; [done|].
  apply Forall_cons in Hl as [Hv Hl]. simpl.
  apply IH; [done|]. by apply dict_add_well_formed.
Qed.

Lemma parse_qs_well_formed (qs : string) : well_formed (parse_qs qs).
Proof.
  apply fold_dict_add_well_formed; [apply parse_qsl_values|apply well_formed_nil].
Qed.

(** The removal steps keep exactly the entries whose key is not named. *)
Lemma pop_filter (k : string) (d : dict) :
  pop k d = List.filter (fun kv => bool_decide (fst kv ∉ [k])) d.
Proof.
  unfold pop. induction d as [|[k' vs] d IH]; [done|]. simpl.
  rewrite IH. destruct (String.eqb_spec k' k) as [->|Hne].
  - rewrite bool_decide_eq_false_2; [done|]. intros H. apply H. left.
  - rewrite bool_decide_eq_true_2; [done|].
    by intros ?%list_elem_of_singleton.
Qed.

Lemma bool_decide_not_elem_of_app (k : string) (l1 l2 : list string) :
  bool_decide (k ∉ l1 ++ l2) = bool_decide (k ∉ l1) && bool_decide (k ∉ l2).
Proof.
  rewrite <- bool_decide_and. apply bool_decide_ext, not_elem_of_app.
Qed.

Lemma filter_filter_keys (l1 l2 : list string) (d : dict) :
  List.filter (fun kv => bool_decide (fst kv ∉ l2))
              (List.filter (fun kv => bool_decide (fst kv ∉ l1)) d)
  = List.filter (fun kv => bool_decide (fst kv ∉ l1 ++ l2)) d.
Proof.
  induction d as [|[k vs] d IH]; [done|]. cbn [List.filter fst].
  rewrite bool_decide_not_elem_of_app.
  destruct (bool_decide (k ∉ l1)); cbn [List.filter fst andb]; [|done].
  destruct (bool_decide (k ∉ l2)); by rewrite IH.
Qed.

Lemma filter_no_keys (d : dict) :
  List.filter (fun kv => bool_decide (fst kv ∉ @nil string)) d = d.
Proof.
  induction d as [|[k vs] d IH]; [done|]. cbn [List.filter fst].
  rewrite bool_decide_eq_true_2 by apply not_elem_of_nil. by rewrite IH.
Qed.

Lemma fold_pop_filter (ks : list string) (d : dict) :
  fold_left (fun d param => pop param d) ks d
  = List.filter (fun kv => bool_decide (fst kv ∉ ks)) d.
Proof.
  revert d. induction ks as [|k ks IH]; intros d; simpl.
  - by rewrite filter_no_keys.
  - rewrite IH, pop_filter, filter_filter_keys. done.
Qed.

Lemma remove_keys_filter (rp : RemoveParams) (d : dict) :
  remove_keys rp d
  = List.filter (fun kv => bool_decide (fst kv ∉ removed_keys rp)) d.
Proof.
  unfold remove_keys, removed_keys.
  rewrite fold_pop_filter.
  destruct (raw_image rp), (no_watermark rp); simpl;
    rewrite ?pop_filter, ?filter_filter_keys; done.
Qed.

Lemma filter_well_formed (f : string * list string -> bool) (d : dict) :
  well_formed d -> well_formed (List.filter f d).
Proof.
  intros [Hnd Hvs]. split.
  - clear Hvs. induction d as [|kv d IH]; [done|]. simpl in *.
    apply NoDup_cons in Hnd as [Hk Hnd]. destruct (f kv); simpl; [|auto].
    apply NoDup_cons. split; [|auto]. intros Hin. apply Hk.
    apply list_elem_of_fmap in Hin as (kv' & -> & Hin).
    apply list_elem_of_fmap. exists kv'. split; [done|].
    apply list_elem_of_In, filter_In in Hin as [Hin _].
    by apply list_elem_of_In.
  - apply Forall_forall. intros kv Hin.
    apply list_elem_of_In, filter_In in Hin as [Hin _].
    apply list_elem_of_In in Hin. by apply (proj1 (Forall_forall _ _) Hvs).
Qed.

Lemma remove_keys_well_formed (rp : RemoveParams) (d : dict) :
  well_formed d -> well_formed (remove_keys rp d).
Proof. rewrite remove_keys_filter. apply filter_well_formed. Qed.

Lemma has_key_filter (k : string) (ks : list string) (d : dict) :
  has_key k (List.filter (fun kv => bool_decide (fst kv ∉ ks)) d)
  = has_key k d && bool_decide (k ∉ ks).
Proof.
  unfold has_key. induction d as [|[k' vs] d IH]; [done|]. simpl.
  destruct (decide (k' ∈ ks)) as [Hin|Hin].
  - rewrite (bool_decide_eq_false_2 (k' ∉ ks)) by auto. rewrite IH.
    destruct (String.eqb_spec k' k) as [->|Hne]; [|done]. simpl.
    rewrite (bool_decide_eq_false_2 (k ∉ ks)) by auto. by rewrite andb_false_r.
  - rewrite (bool_decide_eq_true_2 (k' ∉ ks)) by done. simpl. rewrite IH.
    destruct (String.eqb_spec k' k) as [->|Hne]; [|done]. simpl.
    by rewrite (bool_decide_eq_true_2 (k ∉ ks)).
Qed.

Lemma get_filter (k : string) (ks : list string) (d : dict) :
  k ∉ ks ->
  get k (List.filter (fun kv => bool_decide (fst kv ∉ ks)) d) = get k d.
Proof.
  intros Hk. induction d as [|[k' vs] d IH]; [done|]. simpl.
  destruct (decide (k' ∈ ks)) as [Hin|Hin].
  - rewrite (bool_decide_eq_false_2 (k' ∉ ks)) by auto. rewrite IH.
    destruct (String.eqb_spec k' k) as [->|Hne]; [done|done].
  - rewrite (bool_decide_eq_true_2 (k' ∉ ks)) by done. simpl. by rewrite IH.
Qed.

Lemma pop_absent (k : string) (d : dict) :
  has_key k d = false -> pop k d = d.
Proof.
  unfold has_key, pop. induction d as [|[k' vs] d IH]; [done|]. simpl.
  intros [-> Hd]%orb_false_iff. simpl. by rewrite IH.
Qed.

End RoundTrip.

Module UrlFacts.
Import PyStr UrlParse Shape StrFacts QueryFacts.

Lemma delimiter_free_iff (s : string) :
  delimiter_free s = true <-> has_char "?" s = false /\ has_char "#" s = false.
Proof.
  unfold delimiter_free. rewrite andb_true_iff, !negb_true_iff. done.
Qed.

Lemma delimiter_free_app (s t : string) :
  delimiter_free (s +:+ t) = delimiter_free s && delimiter_free t.
Proof.
  unfold delimiter_free. rewrite !has_char_app.
  by destruct (has_char "?" s), (has_char "#" s), (has_char "?" t).
Qed.

Lemma split_once_prefix (c : ascii) (y s : string) :
  has_char c y = false ->
  split_once c (y +:+ s)
  = match split_once c s with
    | Some (u, v) => Some (y +:+ u, v)
    | None => None
    end.
Proof.
  induction y as [|a y IH]; simpl.
  - intros _. rewrite append_nil_l.
    destruct (split_once c s) as [[??]|]; reflexivity.
  - intros [Ha Hy]%orb_false_iff. rewrite Ha, IH by done.
    destruct (split_once c s) as [[??]|]; reflexivity.
Qed.

Lemma split_once_None_inv (c : ascii) (s : string) :
  split_once c s = None -> has_char c s = false.
Proof.
  induction s as [|a s IH]; [done|]. simpl.
  destruct (Ascii.eqb a c); [done|].
  destruct (split_once c s) as [[??]|]; [done|]. auto.
Qed.

(** A delimiter-free prefix does not change the query part. *)
Lemma query_part_prefix (y s : string) :
  delimiter_free y = true -> query_part (y +:+ s) = query_part s.
Proof.
  intros [Hq Hh]%delimiter_free_iff. unfold query_part.
  rewrite (split_once_prefix "#") by done.
  destruct (split_once "#" s) as [[u v]|]; cbn beta iota;
    rewrite (split_once_prefix "?") by done;
    destruct (split_once "?" _) as [[??]|]; reflexivity.
Qed.

Lemma query_part_behind (q rest : string) :
  has_char "#" q = false ->
  rest = "" \/ (exists f, rest = String "#" f) ->
  query_part ((if truthy q then "?" +:+ q else "") +:+ rest) = q.
Proof.
  intros Hq Hrest. unfold query_part.
  set (Q := if truthy q then "?" +:+ q else "").
  assert (HQ : has_char "#" Q = false).
  { unfold Q. destruct (truthy q); [|done]. exact Hq. }
  assert (HQ2 : split_once "?" Q = if truthy q then Some ("", q) else None).
  { unfold Q. destruct q; reflexivity. }
  destruct Hrest as [->|[f ->]].
  - rewrite append_nil_r, (split_once_none "#" Q HQ).
    rewrite HQ2. destruct q; reflexivity.
  - rewrite (split_once_app "#" Q f HQ). cbn beta iota.
    rewrite HQ2. destruct q; reflexivity.
Qed.

(** The query part of a URL put together from a delimiter-free head, a
    query without [#], and nothing or a [#] with a fragment. *)
Lemma query_part_assembled (x q rest : string) :
  delimiter_free x = true -> has_char "#" q = false ->
  rest = "" \/ (exists f, rest = String "#" f) ->
  query_part (x +:+ (if truthy q then "?" +:+ q else "") +:+ rest) = q.
Proof.
  intros Hx Hq Hrest. by rewrite query_part_prefix, query_part_behind.
Qed.

Lemma break_app (f : ascii -> bool) (s u v : string) :
  break f s = (u, v) ->
  s = u +:+ v /\ forallb (fun c => negb (f c)) u = true.
Proof.
  revert u. induction s as [|a s IH]; intros u; simpl.
  - by intros [= <- <-].
  - destruct (f a) eqn:Hfa.
    + by intros [= <- <-].
    + destruct (break f s) as [u' v']. intros [= <- <-].
      destruct (IH u' eq_refl) as [-> Hu]. simpl. by rewrite Hfa.
Qed.

Lemma startswith_slashes (s : string) :
  startswith "//" s = true -> exists rest, s = String "/" (String "/" rest).
Proof.
  destruct s as [|a [|b rest]]; cbn [startswith]; intros H.
  - done.
  - by rewrite andb_false_r in H.
  - apply andb_true_iff in H as [->%Ascii.eqb_eq H].
    apply andb_true_iff in H as [->%Ascii.eqb_eq _]. by eexists.
Qed.

Lemma scheme_char_delimiter_free (s : string) :
  forallb scheme_char s = true -> delimiter_free s = true.
Proof.
  intros Hs. apply delimiter_free_iff.
  split; by apply (forallb_has_char scheme_char).
Qed.

Lemma netloc_delimiter_free (s : string) :
  forallb (fun c => negb (netloc_delim c)) s = true -> delimiter_free s = true.
Proof.
  intros Hs. apply delimiter_free_iff.
  split; by apply (forallb_has_char (fun c => negb (netloc_delim c))).
Qed.

(** The query that [urlsplit] finds is the query part of the URL once its
    leading blanks and its tabs and newlines are removed: the scheme and the
    netloc that come off first are delimiter-free. *)
Lemma s_query_urlsplit_raw (url sch : string) :
  s_query (urlsplit_raw url sch)
  = query_part (remove_unsafe (lstrip_c0 url)).
Proof.
  unfold urlsplit_raw. set (url0 := remove_unsafe (lstrip_c0 url)).
  set (sch0 := remove_unsafe (strip_c0 sch)).
  assert (Hstep1 : exists sc url1,
    match split_once ":" url0 with
    | Some (String c pre, post) =>
        if is_alpha c && forallb scheme_char (String c pre)
        then (lower (String c pre), post)
        else (sch0, url0)
    | _ => (sch0, url0)
    end = (sc, url1) /\ query_part url0 = query_part url1).
  { destruct (split_once ":" url0) as [[[|c pre] post]|] eqn:Hsp;
      [(eexists _, _; split; reflexivity)..| |(eexists _, _; split; reflexivity)].
    destruct (is_alpha c && forallb scheme_char (String c pre)) eqn:Hc;
      [|(eexists _, _; split; reflexivity)].
    eexists _, _. split; [done|].
    apply split_once_Some in Hsp as [-> _].
    apply andb_true_iff in Hc as [_ Hc].
    change (String ":" post) with (":" +:+ post).
    rewrite <- append_assoc. apply query_part_prefix.
    rewrite delimiter_free_app, (scheme_char_delimiter_free _ Hc).
    reflexivity. }
  destruct Hstep1 as (sc & url1 & -> & ->).
  assert (Hstep2 : exists nl url2,
    (if startswith "//" url1 then splitnetloc url1 else ("", url1))
    = (nl, url2) /\ query_part url1 = query_part url2).
  { destruct (startswith "//" url1) eqn:Hst; [|(eexists _, _; split; reflexivity)].
    apply startswith_slashes in Hst as [rest ->].
    unfold splitnetloc. destruct (break netloc_delim rest) as [nl r] eqn:Hb.
    eexists _, _. split; [done|].
    apply break_app in Hb as [-> Hnl].
    change (String "/" (String "/" (nl +:+ r))) with (("//" +:+ nl) +:+ r).
    apply query_part_prefix. rewrite delimiter_free_app.
    rewrite (netloc_delimiter_free nl Hnl). reflexivity. }
  destruct Hstep2 as (nl & url2 & -> & ->).
  unfold query_part.
  destruct (split_once "#" url2) as [[u f]|];
    by destruct (split_once "?" _) as [[??]|].
Qed.

Lemma drop_while_app (f : ascii -> bool) (x t : string) :
  drop_while f t = t -> drop_while f (x +:+ t) = drop_while f x +:+ t.
Proof.
  intros Ht. induction x as [|a x IH].
  - by rewrite !append_nil_l.
  - rewrite append_cons. simpl. by destruct (f a).
Qed.

Lemma query_char_not_unsafe (q : string) :
  forallb query_char q = true -> remove_unsafe q = q.
Proof.
  intros Hq. apply filter_id. revert Hq. apply forallb_impl.
  by intros [[] [] [] [] [] [] [] []].
Qed.

Lemma query_char_no_hash (q : string) :
  forallb query_char q = true -> has_char "#" q = false.
Proof. by apply forallb_has_char. Qed.

(** The query of a URL put together from a delimiter-free head, a query
    written by [urlencode] and a fragment is that query. *)
Lemma url_query_assembled (sch x q f : string) :
  delimiter_free x = true -> forallb query_char q = true ->
  s_query (urlsplit_raw (x +:+ url_tail q f) sch) = q.
Proof.
  intros Hx Hq. rewrite s_query_urlsplit_raw. unfold lstrip_c0, remove_unsafe.
  rewrite drop_while_app.
  2:{ unfold url_tail. destruct q, f; reflexivity. }
  unfold url_tail. rewrite !filter_app.
  assert (Hq' : filter (fun c => negb (unsafe_byte c))
                  (if truthy q then "?" +:+ q else "")
                = if truthy q then "?" +:+ q else "").
  { destruct (truthy q); [|done].
    change ("?" +:+ q) with (String "?" q). simpl.
    f_equal. by apply query_char_not_unsafe. }
  rewrite Hq'. apply query_part_assembled.
  - apply delimiter_free_iff in Hx as [H1 H2]. apply delimiter_free_iff.
    split; by apply has_char_filter, has_char_drop_while.
  - by apply query_char_no_hash.
  - destruct (truthy f); [right|by left]. eexists. reflexivity.
Qed.

End UrlFacts.


Module ComponentFacts.
Import PyStr UrlParse Shape StrFacts QueryFacts UrlFacts.

Lemma has_char_rev_onto (c : ascii) (s acc : string) :
  has_char c (rev_onto s acc) = has_char c s || has_char c acc.
Proof.
  revert acc. induction s as [|a s IH]; intros acc; [done|]. simpl.
  rewrite IH. simpl.
  by destruct (Ascii.eqb a c), (has_char c s), (has_char c acc).
Qed.

Lemma has_char_rev (c : ascii) (s : string) :
  has_char c (rev s) = has_char c s.
Proof. unfold rev. by rewrite has_char_rev_onto, orb_false_r. Qed.

Lemma delimiter_free_filter (f : ascii -> bool) (s : string) :
  delimiter_free s = true -> delimiter_free (filter f s) = true.
Proof.
  intros [H1 H2]%delimiter_free_iff. apply delimiter_free_iff.
  split; by apply has_char_filter.
Qed.

Lemma delimiter_free_drop_while (f : ascii -> bool) (s : string) :
  delimiter_free s = true -> delimiter_free (drop_while f s) = true.
Proof.
  intros [H1 H2]%delimiter_free_iff. apply delimiter_free_iff.
  split; by apply has_char_drop_while.
Qed.

Lemma delimiter_free_rev (s : string) :
  delimiter_free (rev s) = delimiter_free s.
Proof. unfold delimiter_free. by rewrite !has_char_rev. Qed.

Lemma delimiter_free_default_scheme (sch : string) :
  delimiter_free sch = true ->
  delimiter_free (remove_unsafe (strip_c0 sch)) = true.
Proof.
  intros H. apply delimiter_free_filter. unfold strip_c0.
  rewrite delimiter_free_rev. apply delimiter_free_drop_while.
  rewrite delimiter_free_rev. by apply delimiter_free_drop_while.
Qed.

Lemma scheme_char_lower (s : string) :
  forallb scheme_char s = true -> forallb scheme_char (lower s) = true.
Proof.
  induction s as [|a s IH]; [done|]. simpl.
  intros [Ha Hs]%andb_true_iff. rewrite IH by done. rewrite andb_true_r.
  revert Ha. by destruct a as [[] [] [] [] [] [] [] []].
Qed.

Lemma has_char_split_once (c d : ascii) (s u v : string) :
  split_once d s = Some (u, v) -> has_char c s = false ->
  has_char c u = false /\ has_char c v = false.
Proof.
  intros [-> _]%split_once_Some. rewrite has_char_app. simpl.
  intros [H1 [_ H2]%orb_false_iff]%orb_false_iff. done.
Qed.

Lemma has_char_after_last (c d : ascii) (s : string) :
  has_char c s = false -> has_char c (after_last d s) = false.
Proof.
  induction s as [|a s IH]; [done|]. simpl.
  intros [Ha Hs]%orb_false_iff.
  destruct (has_char d s); [auto|].
  destruct (Ascii.eqb a d); [done|]. simpl. by rewrite Ha.
Qed.

Lemma has_char_upto_last (c d : ascii) (s : string) :
  has_char c s = false -> has_char c (upto_last d s) = false.
Proof.
  induction s as [|a s IH]; [done|]. simpl.
  intros [Ha Hs]%orb_false_iff.
  destruct (has_char d s); simpl; [by rewrite Ha, IH|].
  destruct (Ascii.eqb a d); simpl; [by rewrite Ha|done].
Qed.

(** What [urlsplit] returns is made of delimiter-free pieces, up to the
    query, which has no [#]. *)
Lemma urlsplit_raw_shape (url sch : string) :
  delimiter_free sch = true ->
  let r := urlsplit_raw url sch in
  delimiter_free (s_scheme r) = true /\
  delimiter_free (s_netloc r) = true /\
  delimiter_free (s_path r) = true /\
  has_char "#" (s_query r) = false.
Proof.
  intros Hsch. unfold urlsplit_raw.
  set (url0 := remove_unsafe (lstrip_c0 url)).
  set (sch0 := remove_unsafe (strip_c0 sch)).
  assert (Hsch0 : delimiter_free sch0 = true)
    by by apply delimiter_free_default_scheme.
  assert (Hstep1 : exists sc url1,
    match split_once ":" url0 with
    | Some (String c pre, post) =>
        if is_alpha c && forallb scheme_char (String c pre)
        then (lower (String c pre), post)
        else (sch0, url0)
    | _ => (sch0, url0)
    end = (sc, url1) /\ delimiter_free sc = true).
  { destruct (split_once ":" url0) as [[[|c pre] post]|];
      [by eexists _, _..| |by eexists _, _].
    destruct (is_alpha c && forallb scheme_char (String c pre)) eqn:Hc;
      [|by eexists _, _].
    eexists _, _. split; [done|].
    apply andb_true_iff in Hc as [_ Hc].
    by apply scheme_char_delimiter_free, scheme_char_lower. }
  destruct Hstep1 as (sc & url1 & -> & Hsc).
  assert (Hstep2 : exists nl url2,
    (if startswith "//" url1 then splitnetloc url1 else ("", url1))
    = (nl, url2) /\ delimiter_free nl = true).
  { destruct (startswith "//" url1) eqn:Hst; [|by eexists _, _].
    apply startswith_slashes in Hst as [rest ->].
    unfold splitnetloc. destruct (break netloc_delim rest) as [nl r] eqn:Hb.
    eexists _, _. split; [done|].
    apply break_app in Hb as [_ Hnl]. by apply netloc_delimiter_free. }
  destruct Hstep2 as (nl & url2 & -> & Hnl).
  destruct (split_once "#" url2) as [[u f]|] eqn:Hh.
  - apply split_once_Some in Hh as [_ Hu].
    destruct (split_once "?" u) as [[u' q]|] eqn:Hq; simpl.
    + destruct (has_char_split_once "#" "?" _ _ _ Hq Hu) as [Hu' Hq'].
      apply split_once_Some in Hq as [_ Hu'q].
      split_and!; [done..| |done]. by apply delimiter_free_iff.
    + apply split_once_None_inv in Hq.
      split_and!; [done..| |done]. by apply delimiter_free_iff.
  - apply split_once_None_inv in Hh.
    destruct (split_once "?" url2) as [[u' q]|] eqn:Hq; simpl.
    + destruct (has_char_split_once "#" "?" _ _ _ Hq Hh) as [Hu' Hq'].
      apply split_once_Some in Hq as [_ Hu'q].
      split_and!; [done..| |done]. by apply delimiter_free_iff.
    + apply split_once_None_inv in Hq.
      split_and!; [done..| |done]. by apply delimiter_free_iff.
Qed.

Lemma splitparams_shape (url : string) :
  delimiter_free url = true ->
  delimiter_free (splitparams url).1 = true /\
  delimiter_free (splitparams url).2 = true.
Proof.
  intros [H1 H2]%delimiter_free_iff. unfold splitparams.
  destruct (has_char "/" url).
  - destruct (split_once ";" (after_last "/" url)) as [[a b]|] eqn:Hs; simpl.
    + destruct (has_char_split_once "?" ";" _ _ _ Hs) as [Ha1 Hb1];
        [by apply has_char_after_last|].
      destruct (has_char_split_once "#" ";" _ _ _ Hs) as [Ha2 Hb2];
        [by apply has_char_after_last|].
      split; apply delimiter_free_iff; [|done].
      rewrite !has_char_app, Ha1, Ha2, !has_char_upto_last; done.
    + split; by apply delimiter_free_iff.
  - destruct (split_once ";" url) as [[a b]|] eqn:Hs; simpl.
    + destruct (has_char_split_once "?" ";" _ _ _ Hs H1) as [Ha1 Hb1].
      destruct (has_char_split_once "#" ";" _ _ _ Hs H2) as [Ha2 Hb2].
      split; by apply delimiter_free_iff.
    + split; by apply delimiter_free_iff.
Qed.

End ComponentFacts.

Module UnparseFacts.
Import PyStr UrlParse Shape StrFacts QueryFacts UrlFacts ComponentFacts.

Section Validation.
Variable bracketed_netloc_ok : string -> bool.
Variable nfkc_netloc_ok : string -> bool.

Abbreviation urlparse := (UrlParse.urlparse bracketed_netloc_ok nfkc_netloc_ok).
Abbreviation urljoin := (UrlParse.urljoin bracketed_netloc_ok nfkc_netloc_ok).

Lemma urlparse_raw (url sch : string) (p : ParseResult) :
  urlparse url sch = Some p ->
  let r := urlsplit_raw url sch in
  scheme p = s_scheme r /\ netloc p = s_netloc r /\
  query p = s_query r /\ fragment p = s_fragment r /\
  (path p, params p)
  = if mem (s_scheme r) uses_params && has_char ";" (s_path r)
    then splitparams (s_path r) else (s_path r, "").
Proof.
  unfold urlparse, UrlParse.urlparse, urlsplit.
  destruct (netloc_ok bracketed_netloc_ok nfkc_netloc_ok
              (s_netloc (urlsplit_raw url sch))); [|done]. cbn -[mem].
  destruct (mem _ _ && has_char _ _).
  - destruct (splitparams _) as [a b]. by intros [= <-].
  - by intros [= <-].
Qed.

(** A URL without a netloc and without [;] in its path is parsed into the
    pieces of [urlsplit_raw], with no exception. *)
Lemma urlparse_no_netloc (url sch : string) (r : SplitResult) :
  urlsplit_raw url sch = r -> s_netloc r = "" ->
  has_char ";" (s_path r) = false ->
  urlparse url sch
  = Some (mkParse (s_scheme r) "" (s_path r) "" (s_query r) (s_fragment r)).
Proof.
  intros Hr Hn Hp. unfold urlparse, UrlParse.urlparse, urlsplit.
  rewrite Hr, Hn. cbn -[mem]. rewrite Hp, andb_false_r. by rewrite Hn.
Qed.

Lemma urlparse_query (url sch : string) (p : ParseResult) :
  urlparse url sch = Some p ->
  query p = query_part (remove_unsafe (lstrip_c0 url)).
Proof.
  intros (_ & _ & -> & _)%urlparse_raw. apply s_query_urlsplit_raw.
Qed.

Lemma urlparse_shape (url sch : string) (p : ParseResult) :
  urlparse url sch = Some p -> delimiter_free sch = true ->
  head_free p /\ has_char "#" (query p) = false.
Proof.
  intros (Hs & Hn & Hq & _ & Hpp)%urlparse_raw Hsch.
  destruct (urlsplit_raw_shape url sch Hsch) as (H1 & H2 & H3 & H4).
  unfold head_free. rewrite Hs, Hn, Hq. split_and!; try done.
  - destruct (mem _ _ && has_char _ _).
    + destruct (splitparams_shape _ H3) as [Ha _]. by rewrite <- Hpp in Ha.
    + by injection Hpp as -> _.
  - destruct (mem _ _ && has_char _ _).
    + destruct (splitparams_shape _ H3) as [_ Hb]. by rewrite <- Hpp in Hb.
    + by injection Hpp as _ ->.
Qed.

End Validation.

(** What [urlunparse] writes: a delimiter-free head, then the query and
    the fragment. *)
Lemma urlunparse_assembled (p : ParseResult) :
  head_free p ->
  exists x, delimiter_free x = true /\
            urlunparse p = x +:+ url_tail (query p) (fragment p).
Proof.
  intros (Hs & Hn & Hp & Ha). unfold urlunparse, urlunsplit.
  set (url := if truthy (params p) then path p +:+ ";" +:+ params p
              else path p).
  assert (Hurl : delimiter_free url = true).
  { unfold url. destruct (truthy (params p)); [|done].
    by rewrite !delimiter_free_app, Hp, Ha. }
  set (url1 := if truthy (netloc p) || _ then _ else url).
  assert (Hurl1 : delimiter_free url1 = true).
  { unfold url1. destruct (truthy (netloc p) || _); [|done].
    rewrite !delimiter_free_app, Hn.
    destruct (truthy url && _); by rewrite ?delimiter_free_app, Hurl. }
  set (url2 := if truthy (scheme p) then _ else url1).
  assert (Hurl2 : delimiter_free url2 = true).
  { unfold url2. destruct (truthy (scheme p)); [|done].
    by rewrite !delimiter_free_app, Hs, Hurl1. }
  exists url2. split; [done|]. unfold url_tail.
  destruct (truthy (query p)), (truthy (fragment p));
    by rewrite ?append_assoc, ?append_nil_r.
Qed.

End UnparseFacts.

Module JoinFacts.
Import PyStr UrlParse Shape StrFacts QueryFacts UrlFacts ComponentFacts UnparseFacts.

Lemma split_delimiter_free (c : ascii) (s : string) :
  delimiter_free s = true ->
  Forall (fun t => delimiter_free t = true) (split c s).
Proof.
  induction s as [|a s IH]; intros Hs; [by repeat constructor|].
  change (String a s) with (String a "" +:+ s) in Hs.
  rewrite delimiter_free_app in Hs. apply andb_true_iff in Hs as [Ha Hs].
  specialize (IH Hs). simpl. destruct (Ascii.eqb a c).
  - by constructor.
  - destruct (split c s) as [|u r]; [by repeat constructor|].
    apply Forall_cons in IH as [Hu Hr]. constructor; [|done].
    change (String a u) with (String a "" +:+ u).
    by rewrite delimiter_free_app, Ha, Hu.
Qed.

Lemma Forall_removelast {A} (P : A -> Prop) (l : list A) :
  Forall P l -> Forall P (removelast l).
Proof.
  induction l as [|x l IH]; [done|]. intros [Hx Hl]%Forall_cons. simpl.
  destruct l; [constructor|]. constructor; auto.
Qed.

Lemma base_parts_delimiter_free (bpath : string) :
  delimiter_free bpath = true ->
  Forall (fun t => delimiter_free t = true) (base_parts bpath).
Proof.
  intros H. apply (split_delimiter_free "/") in H. unfold base_parts.
  destruct (last (split "/" bpath)) as [[|??]|];
    auto using Forall_removelast.
Qed.

Lemma filter_middle_delimiter_free (l : list string) :
  Forall (fun t => delimiter_free t = true) l ->
  Forall (fun t => delimiter_free t = true) (filter_middle l).
Proof.
  intros H. unfold filter_middle. destruct l as [|x r]; [done|].
  destruct (last r) as [z|] eqn:Hz; [|done].
  apply Forall_cons in H as [Hx Hr]. constructor; [done|].
  apply Forall_app. split.
  - apply Forall_forall. intros t Ht.
    apply list_elem_of_In, filter_In in Ht as [Ht _].
    apply list_elem_of_In in Ht.
    by apply (proj1 (Forall_forall _ _) (Forall_removelast _ _ Hr)).
  - constructor; [|done]. apply last_Some in Hz as [l' ->].
    by apply Forall_app in Hr as [_ [? _]%Forall_cons].
Qed.

Lemma resolve_delimiter_free (l : list string) :
  Forall (fun t => delimiter_free t = true) l ->
  Forall (fun t => delimiter_free t = true) (resolve l).
Proof.
  unfold resolve.
  assert (Hgen : forall acc,
    Forall (fun t => delimiter_free t = true) acc ->
    Forall (fun t => delimiter_free t = true) l ->
    Forall (fun t => delimiter_free t = true)
      (fold_left (fun resolved seg =>
                    if String.eqb seg ".." then removelast resolved
                    else if String.eqb seg "." then resolved
                    else resolved ++ [seg]) l acc)).
  { induction l as [|seg l IH]; intros acc Hacc Hl; [done|].
    apply Forall_cons in Hl as [Hseg Hl]. simpl. apply IH; [|done].
    destruct (String.eqb seg ".."); [by apply Forall_removelast|].
    destruct (String.eqb seg "."); [done|].
    apply Forall_app. split; [done|]. by constructor. }
  intros Hl. by apply Hgen.
Qed.

Lemma join_delimiter_free (l : list string) :
  Forall (fun t => delimiter_free t = true) l ->
  delimiter_free (join "/" l) = true.
Proof.
  induction l as [|x l IH]; [done|]. intros [Hx Hl]%Forall_cons.
  destruct l as [|y l]; [done|].
  change (join "/" (x :: y :: l)) with (x +:+ "/" +:+ join "/" (y :: l)).
  rewrite !delimiter_free_app, Hx, IH by done. reflexivity.
Qed.

Lemma tail_empty (x q f : string) :
  truthy (x +:+ url_tail q f) = false -> q = "".
Proof.
  rewrite truthy_app. intros [_ H]%orb_false_iff. revert H.
  unfold url_tail. rewrite truthy_app. intros [H _]%orb_false_iff.
  by destruct q.
Qed.

Section Validation.
Variable bracketed_netloc_ok : string -> bool.
Variable nfkc_netloc_ok : string -> bool.

Abbreviation urlparse := (UrlParse.urlparse bracketed_netloc_ok nfkc_netloc_ok).
Abbreviation urljoin := (UrlParse.urljoin bracketed_netloc_ok nfkc_netloc_ok).

(** Joining a URL that ends with a query written by [urlencode] to a base
    gives a URL with that very query, when the query is not empty or the
    base has no query of its own. *)
Lemma url_query_urljoin (base url full x q f : string) :
  url = x +:+ url_tail q f ->
  delimiter_free x = true ->
  forallb query_char q = true ->
  truthy q = true \/ url_query base = "" ->
  urljoin base url = Some full ->
  url_query full = q.
Proof.
  intros Hurl Hx Hq Hbase. unfold urljoin, UrlParse.urljoin.
  destruct (truthy base) eqn:Hb; cbn [negb].
  2:{ intros [= <-]. rewrite Hurl. by apply url_query_assembled. }
  destruct (truthy url) eqn:Hu; cbn [negb].
  2:{ intros [= <-]. rewrite Hurl in Hu. apply tail_empty in Hu. subst q.
      destruct Hbase as [Hq'|Hbase]; [done|by rewrite Hbase]. }
  fold urlparse.
  destruct (urlparse base "") as [b|] eqn:Hpb; [|done]. cbn -[mem].
  destruct (urlparse url (scheme b)) as [u|] eqn:Hpu; [|done]. cbn -[mem].
  destruct (urlparse_shape _ _ _ _ _ Hpb eq_refl)
    as ((Hbs & Hbn & Hbp & Hba) & _).
  destruct (urlparse_shape _ _ _ _ _ Hpu Hbs)
    as ((Hus & Hun & Hup & Hua) & _).
  assert (Hqb : truthy q = true \/ query b = "").
  { destruct Hbase as [Hq'|Hbase]; [by left|right].
    apply urlparse_raw in Hpb as (_ & _ & -> & _). exact Hbase. }
  assert (Hqu : query u = q).
  { apply urlparse_raw in Hpu as (_ & _ & -> & _).
    rewrite Hurl. by apply url_query_assembled. }
  assert (Hfull : forall p, head_free p -> query p = q ->
                            url_query (urlunparse p) = q).
  { intros p Hp Hqp. destruct (urlunparse_assembled p Hp) as (y & Hy & ->).
    rewrite Hqp. by apply url_query_assembled. }
  destruct (negb (String.eqb (scheme u) (scheme b)) || _).
  { intros [= <-]. rewrite Hurl. by apply url_query_assembled. }
  destruct (mem (scheme u) uses_netloc && truthy (netloc u)).
  { intros [= <-]. by apply Hfull. }
  set (netloc' := if mem (scheme u) uses_netloc then netloc b else netloc u).
  assert (Hn' : delimiter_free netloc' = true).
  { unfold netloc'. by destruct (mem (scheme u) uses_netloc). }
  destruct (negb (truthy (path u)) && negb (truthy (params u))).
  { intros [= <-]. apply Hfull; [by split_and!|].
    cbn [scheme netloc path params query fragment].
    rewrite Hqu. destruct Hqb as [-> | ->]; [done|by destruct q]. }
  set (segments :=
         if startswith "/" (path u) then split "/" (path u)
         else filter_middle (base_parts (path b) ++ split "/" (path u))).
  assert (Hseg : Forall (fun t => delimiter_free t = true) segments).
  { unfold segments. destruct (startswith "/" (path u)).
    - by apply split_delimiter_free.
    - apply filter_middle_delimiter_free, Forall_app. split.
      + by apply base_parts_delimiter_free.
      + by apply split_delimiter_free. }
  set (resolved :=
         match last segments with
         | Some seg =>
             if String.eqb seg "." || String.eqb seg ".."
             then resolve segments ++ [""] else resolve segments
         | None => resolve segments
         end).
  assert (Hres : Forall (fun t => delimiter_free t = true) resolved).
  { unfold resolved. pose proof (resolve_delimiter_free _ Hseg) as Hr.
    destruct (last segments); [|done].
    destruct (_ || _); [|done]. apply Forall_app. split; [done|].
    by constructor. }
  set (path' := if truthy (join "/" resolved) then join "/" resolved else "/").
  assert (Hpath' : delimiter_free path' = true).
  { unfold path'. destruct (truthy (join "/" resolved)); [|reflexivity].
    by apply join_delimiter_free. }
  intros [= <-]. apply Hfull; [|done]. by split_and!.
Qed.

End Validation.

End JoinFacts.

(** ** Extraction and canonicalisation *)

Module ExtractFacts.
Import PyStr UrlParse Extract Shape StrFacts QueryFacts DictFacts RoundTrip
       UrlFacts ComponentFacts UnparseFacts JoinFacts.

Lemma matches_extension_iff (extensions : list string) (path : string) :
  matches_extension extensions path = true <->
  exists ext, ext ∈ extensions /\ endswith (lower ext) (lower path) = true.
Proof.
  unfold matches_extension. rewrite existsb_exists. split.
  - intros (e & Hin & He). apply in_map_iff in Hin as (ext & <- & Hin).
    exists ext. split; [by apply list_elem_of_In|done].
  - intros (ext & Hin & He). exists (lower ext). split; [|done].
    apply in_map_iff. exists ext. split; [done|]. by apply list_elem_of_In.
Qed.

(** Two dictionaries with the same keys in the same order and the same
    mapping are the same dictionary. *)
Lemma dict_ext (d1 d2 : dict) :
  NoDup (map fst d1) ->
  map fst d1 = map fst d2 ->
  mapping_of d1 = mapping_of d2 ->
  d1 = d2.
Proof.
  unfold mapping_of. revert d2.
  induction d1 as [|[k v1] d1 IH]; intros [|[k' v2] d2] Hnd Hk Hm;
    try done.
  simpl in Hk. injection Hk as <- Hk.
  apply NoDup_cons in Hnd as [Hk1 Hnd]. simpl in Hm.
  assert (v1 = v2) as <-.
  { apply (f_equal (fun m => m !! k)) in Hm.
    rewrite !lookup_insert_eq in Hm. by injection Hm. }
  f_equal. apply IH; [done..|].
  apply map_eq. intros i. destruct (decide (i = k)) as [->|Hne].
  - assert (H1 : (list_to_map d1 : gmap string (list string)) !! k = None)
      by (apply not_elem_of_list_to_map_1; exact Hk1).
    assert (H2 : (list_to_map d2 : gmap string (list string)) !! k = None).
    { assert (Hk2 : k ∉ map fst d2) by (rewrite <- Hk; exact Hk1).
      apply not_elem_of_list_to_map_1. exact Hk2. }
    by rewrite H1, H2.
  - apply (f_equal (fun m => m !! i)) in Hm.
    by rewrite !lookup_insert_ne in Hm.
Qed.

Section Extraction.
Variable bracketed_netloc_ok : string -> bool.
Variable nfkc_netloc_ok : string -> bool.

Abbreviation urlparse := (UrlParse.urlparse bracketed_netloc_ok nfkc_netloc_ok).
Abbreviation urljoin := (UrlParse.urljoin bracketed_netloc_ok nfkc_netloc_ok).
Abbreviation selected := (Extract.selected bracketed_netloc_ok nfkc_netloc_ok).
Abbreviation canonicalize :=
  (Extract.canonicalize bracketed_netloc_ok nfkc_netloc_ok).
Abbreviation visit := (Extract.visit bracketed_netloc_ok nfkc_netloc_ok).
Abbreviation image_url_set :=
  (Extract.image_url_set bracketed_netloc_ok nfkc_netloc_ok).
Abbreviation extract_image_urls :=
  (Extract.extract_image_urls bracketed_netloc_ok nfkc_netloc_ok).

Lemma selected_true (extensions : list string) (href : string) :
  selected extensions href = Some true <->
  contains "/orderfiles/" href = true /\
  exists p, urlparse href "" = Some p /\
            matches_extension extensions (path p) = true.
Proof.
  unfold selected, Extract.selected.
  destruct (contains "/orderfiles/" href); [|split; [done|by intros [? _]]].
  fold urlparse. destruct (urlparse href "") as [p|]; simpl.
  - split.
    + intros [= H]. split; [done|]. by exists p.
    + intros [_ (p' & [= <-] & H)]. by rewrite H.
  - split; [done|]. by intros [_ (p' & ? & _)].
Qed.

(** One iteration of the loop adds the canonical URL of a selected href,
    and nothing for another href. *)
Lemma visit_selected (base_url : string) (extensions : list string)
    (rp : RemoveParams) (s : gset string) (href : string) :
  visit base_url extensions rp s href
  = match selected extensions href with
    | Some true =>
        full_url ← canonicalize base_url rp href; Some (s ∪ {[full_url]})
    | Some false => Some s
    | None => None
    end.
Proof.
  unfold visit, Extract.visit, selected, Extract.selected,
    canonicalize, Extract.canonicalize.
  destruct (contains "/orderfiles/" href); [|done].
  fold urlparse. destruct (urlparse href "") as [p|]; [|done]. simpl.
  by destruct (matches_extension extensions (path p)).
Qed.

Lemma image_url_set_from (base_url : string) (extensions : list string)
    (rp : RemoveParams) (hrefs : list string) (s0 s : gset string) :
  foldl (fun acc href => s ← acc; visit base_url extensions rp s href)
        (Some s0) hrefs = Some s ->
  forall u, u ∈ s <->
    u ∈ s0 \/
    exists href, href ∈ hrefs /\ selected extensions href = Some true /\
                 canonicalize base_url rp href = Some u.
Proof.
  revert s0. induction hrefs as [|h hrefs IH]; intros s0; simpl.
  - intros [= <-] u. split; [by left|]. intros [?|(h & Hh & _)]; [done|].
    by apply elem_of_nil in Hh.
  - rewrite visit_selected.
    destruct (selected extensions h) as [[]|] eqn:Hsel.
    + destruct (canonicalize base_url rp h) as [full|] eqn:Hc; simpl.
      * intros Hf u. rewrite (IH _ Hf u), elem_of_union, elem_of_singleton.
        split.
        -- intros [[?| ->]|(h' & Hh' & ?)]; [by left| |].
           ++ right. exists h. split; [left|done].
           ++ right. exists h'. split; [by right|done].
        -- intros [?|(h' & Hh' & Hs' & Hc')]; [by left; left|].
           apply elem_of_cons in Hh' as [->|Hh'].
           ++ left. right. congruence.
           ++ right. by exists h'.
      * intros Hf. exfalso. clear -Hf.
        induction hrefs as [|h' hrefs IH]; [done|]. by apply IH.
    + intros Hf u. rewrite (IH _ Hf u). split.
      * intros [?|(h' & Hh' & ?)]; [by left|].
        right. exists h'. split; [by right|done].
      * intros [?|(h' & Hh' & Hs' & Hc')]; [by left|].
        apply elem_of_cons in Hh' as [->|Hh']; [congruence|].
        right. by exists h'.
    + intros Hf. exfalso. clear -Hf.
      induction hrefs as [|h' hrefs IH]; [done|]. by apply IH.
Qed.

(** The set at the end of the loop holds the canonical URLs of the selected
    anchors, and nothing else. *)
Lemma image_url_set_elements (soup : list Tag) (base_url : string)
    (extensions : list string) (rp : RemoveParams) (s : gset string) :
  image_url_set soup base_url extensions rp = Some s ->
  forall u, u ∈ s <->
    exists href, href ∈ anchors soup /\
                 selected extensions href = Some true /\
                 canonicalize base_url rp href = Some u.
Proof.
  intros Hs u. rewrite (image_url_set_from _ _ _ _ _ _ Hs u).
  split; [|by right]. intros [H|H]; [|done]. by apply elem_of_empty in H.
Qed.

End Extraction.

End ExtractFacts.

Module ExtractProps.
Import PyStr UrlParse Extract Shape StrFacts QueryFacts DictFacts RoundTrip
       UrlFacts ComponentFacts UnparseFacts JoinFacts ExtractFacts.

Lemma join_chars (f : ascii -> bool) (sep : string) (l : list string) :
  forallb f sep = true ->
  Forall (fun s => forallb f s = true) l ->
  forallb f (join sep l) = true.
Proof.
  intros Hsep. induction l as [|x l IH]; [done|].
  intros [Hx Hl]%Forall_cons. destruct l as [|y l]; [done|].
  change (join sep (x :: y :: l)) with (x +:+ sep +:+ join sep (y :: l)).
  by rewrite !forallb_app, Hx, Hsep, IH.
Qed.

Lemma urlencode_chars (d : dict) : forallb query_char (urlencode d) = true.
Proof. apply join_chars; [done|apply encode_fields_chars]. Qed.

(** The query that the code rebuilds decodes to the dictionary it was
    built from. *)
Lemma parse_new_query (rp : RemoveParams) (p : ParseResult) :
  parse_qs (new_query rp p) = remove_keys rp (parse_qs (query p)).
Proof.
  apply parse_qs_urlencode, remove_keys_well_formed, parse_qs_well_formed.
Qed.

Lemma removed_key_absent (rp : RemoveParams) (k : string) (d : dict) :
  k ∈ removed_keys rp -> has_key k (remove_keys rp d) = false.
Proof.
  intros Hk. rewrite remove_keys_filter, has_key_filter.
  rewrite (bool_decide_eq_false_2 (k ∉ removed_keys rp)) by auto.
  apply andb_false_r.
Qed.

Lemma kept_key_unchanged (rp : RemoveParams) (k : string) (d : dict) :
  k ∉ removed_keys rp -> get k (remove_keys rp d) = get k d.
Proof. intros Hk. rewrite remove_keys_filter. by apply get_filter. Qed.

Section Extraction.
Variable bracketed_netloc_ok : string -> bool.
Variable nfkc_netloc_ok : string -> bool.

Abbreviation urlparse := (UrlParse.urlparse bracketed_netloc_ok nfkc_netloc_ok).
Abbreviation urljoin := (UrlParse.urljoin bracketed_netloc_ok nfkc_netloc_ok).
Abbreviation selected := (Extract.selected bracketed_netloc_ok nfkc_netloc_ok).
Abbreviation canonicalize :=
  (Extract.canonicalize bracketed_netloc_ok nfkc_netloc_ok).
Abbreviation visit := (Extract.visit bracketed_netloc_ok nfkc_netloc_ok).
Abbreviation image_url_set :=
  (Extract.image_url_set bracketed_netloc_ok nfkc_netloc_ok).
Abbreviation extract_image_urls :=
  (Extract.extract_image_urls bracketed_netloc_ok nfkc_netloc_ok).

(** Against a base URL without a query, the query of the canonical URL is
    the rebuilt query. *)
Lemma canonicalize_query (base_url href full : string) (rp : RemoveParams)
    (p : ParseResult) :
  url_query base_url = "" ->
  urlparse href "" = Some p ->
  canonicalize base_url rp href = Some full ->
  url_query full = new_query rp p.
Proof.
  intros Hbase Hp. unfold canonicalize, Extract.canonicalize.
  fold urlparse. rewrite Hp. cbn [mbind option_bind]. fold urljoin.
  destruct (urlparse_shape _ _ _ _ _ Hp eq_refl) as [(Hs & Hn & Hpa & Hpr) _].
  destruct (urlunparse_assembled
              (mkParse (scheme p) (netloc p) (path p) (params p)
                       (new_query rp p) (fragment p)))
    as (x & Hx & Hclean); [by split_and!|].
  cbn [query fragment] in Hclean. intros Hjoin.
  eapply url_query_urljoin; [exact Hclean|exact Hx| |by right|exact Hjoin].
  apply urlencode_chars.
Qed.

(** The base URL that [main] passes has no query. *)
Lemma main_base_no_query (page_url : string) (p : ParseResult) :
  urlparse page_url "" = Some p ->
  url_query (scheme p +:+ "://" +:+ netloc p) = "".
Proof.
  intros Hp.
  destruct (urlparse_shape _ _ _ _ _ Hp eq_refl) as [(Hs & Hn & _) _].
  rewrite <- (append_nil_r (_ +:+ _ +:+ _)).
  apply (url_query_assembled "" _ "" "");
    [|done]. by rewrite !delimiter_free_app, Hs, Hn.
Qed.

(** C3, as the code has it: with [raw_image] set and a base URL without a
    query, the query of the canonical URL of an href decodes to the query
    of the href without the keys that the rules name.  It has no key
    [width] and no key [height], wherever they stood in the href; the
    comparison is exact, so a key of another casing is not named by the
    rule and keeps its values; and popping a key that is absent leaves the
    dictionary as it is. *)
Theorem dimensions_are_stripped (base_url href full : string)
    (rp : RemoveParams) (p : ParseResult) :
  raw_image rp = true ->
  url_query base_url = "" ->
  urlparse href "" = Some p ->
  canonicalize base_url rp href = Some full ->
  parse_qs (url_query full) = remove_keys rp (parse_qs (query p)) /\
  has_key "width" (parse_qs (url_query full)) = false /\
  has_key "height" (parse_qs (url_query full)) = false /\
  (forall k, k ∉ removed_keys rp ->
             get k (parse_qs (url_query full)) = get k (parse_qs (query p))) /\
  (forall k d, has_key k d = false -> pop k d = d).
Proof.
  intros Hraw Hbase Hp Hc.
  rewrite (canonicalize_query _ _ _ rp p Hbase Hp Hc), parse_new_query.
  assert (Hin : forall k, k ∈ ["width"; "height"] -> k ∈ removed_keys rp).
  { intros k Hk. unfold removed_keys. rewrite Hraw. apply elem_of_app. by left. }
  split_and!; [done| | | |].
  - apply removed_key_absent, Hin. by left.
  - apply removed_key_absent, Hin. right. by left.
  - intros k Hk. by apply kept_key_unchanged.
  - apply pop_absent.
Qed.

(** Every URL of the extraction result is free of the dimension keys. *)
Lemma extracted_urls_have_no_dimensions (soup : list Tag)
    (base_url : string) (extensions : list string) (rp : RemoveParams)
    (s : gset string) (u : string) :
  raw_image rp = true ->
  url_query base_url = "" ->
  image_url_set soup base_url extensions rp = Some s ->
  u ∈ s ->
  has_key "width" (parse_qs (url_query u)) = false /\
  has_key "height" (parse_qs (url_query u)) = false.
Proof.
  intros Hraw Hbase Hs Hu.
  apply (image_url_set_elements _ _ _ _ _ _ _ Hs) in Hu
    as (href & _ & Hsel & Hc).
  apply selected_true in Hsel as (_ & p & Hp & _).
  rewrite (canonicalize_query _ _ _ rp p Hbase Hp Hc), parse_new_query.
  split; apply removed_key_absent; unfold removed_keys; rewrite Hraw;
    apply elem_of_app; left; [left|right; left].
Qed.

End Extraction.

End ExtractProps.

(** ** The scenario of the two widths *)

Module ScenarioFacts.
Import PyStr UrlParse Extract Shape StrFacts QueryFacts DictFacts RoundTrip
       UrlFacts ComponentFacts UnparseFacts JoinFacts ExtractFacts Scenarios.

Section Extraction.
Variable bracketed_netloc_ok : string -> bool.
Variable nfkc_netloc_ok : string -> bool.

Abbreviation urlparse := (UrlParse.urlparse bracketed_netloc_ok nfkc_netloc_ok).
Abbreviation urljoin := (UrlParse.urljoin bracketed_netloc_ok nfkc_netloc_ok).
Abbreviation selected := (Extract.selected bracketed_netloc_ok nfkc_netloc_ok).
Abbreviation canonicalize :=
  (Extract.canonicalize bracketed_netloc_ok nfkc_netloc_ok).
Abbreviation visit := (Extract.visit bracketed_netloc_ok nfkc_netloc_ok).
Abbreviation image_url_set :=
  (Extract.image_url_set bracketed_netloc_ok nfkc_netloc_ok).

(** How the path [/orderfiles/a.jpg], alone or with one of the two queries
    of the scenario, is parsed under any default scheme. *)
Lemma urlparse_orderfiles (sch q : string) :
  q ∈ [""; "?width=800&watermark=1"; "?width=400&watermark=1"] ->
  urlparse ("/orderfiles/a.jpg" +:+ q) sch
  = Some (mkParse (remove_unsafe (strip_c0 sch)) "" "/orderfiles/a.jpg" ""
                  (query_part q) "").
Proof.
  intros Hq.
  assert (Hr : exists r, urlsplit_raw ("/orderfiles/a.jpg" +:+ q) sch = r /\
             r = mkSplit (remove_unsafe (strip_c0 sch)) "" "/orderfiles/a.jpg"
                   (query_part q) "").
  { eexists. split; [reflexivity|].
    repeat (apply elem_of_cons in Hq as [->|Hq]); [..|by apply elem_of_nil in Hq];
      vm_compute; reflexivity. }
  destruct Hr as (r & Hr & ->).
  by rewrite (urlparse_no_netloc _ _ _ _ _ Hr eq_refl eq_refl).
Qed.

Lemma urljoin_orderfiles (base q : string) (b : ParseResult) :
  q ∈ [""; "?width=800&watermark=1"; "?width=400&watermark=1"] ->
  urlparse base "" = Some b ->
  exists x, delimiter_free x = true /\
            urljoin base ("/orderfiles/a.jpg" +:+ q)
            = Some (x +:+ "/orderfiles/a.jpg" +:+ q).
Proof.
  intros Hq Hpb. unfold urljoin, UrlParse.urljoin.
  destruct (truthy base); cbn [negb]; [|by exists ""].
  change (truthy ("/orderfiles/a.jpg" +:+ q)) with true. cbn [negb].
  fold urlparse. rewrite Hpb. cbn [mbind option_bind].
  rewrite (urlparse_orderfiles _ _ Hq).
  cbn [mbind option_bind scheme netloc path params query fragment].
  destruct (urlparse_shape _ _ _ _ _ Hpb eq_refl) as ((Hbs & Hbn & _) & _).
  apply delimiter_free_default_scheme in Hbs.
  set (s := remove_unsafe (strip_c0 (scheme b))) in *.
  destruct (negb (String.eqb s (scheme b)) || _); [by exists ""|].
  change (truthy "") with false. rewrite andb_false_r.
  cbn [truthy negb andb].
  set (n := if mem s uses_netloc then netloc b else "").
  assert (Hn : delimiter_free n = true).
  { unfold n. by destruct (mem s uses_netloc). }
  lazymatch goal with
  | |- context [urlunparse (mkParse _ _ ?p _ _ _)] =>
      change p with "/orderfiles/a.jpg"
  end.
  unfold urlunparse, urlunsplit.
  cbn [scheme netloc path params query fragment truthy].
  change (startswith "//" "/orderfiles/a.jpg") with false.
  change (startswith "/" "/orderfiles/a.jpg") with true.
  cbn [negb andb]. rewrite andb_true_r.
  exists ((if truthy s then s +:+ ":" else "")
          +:+ (if truthy n || truthy s && mem s uses_netloc
               then "//" +:+ n else "")).
  split.
  - rewrite delimiter_free_app.
    destruct (truthy s), (truthy n || _);
      rewrite ?delimiter_free_app, ?Hbs, ?Hn; reflexivity.
  - f_equal.
    destruct (truthy s), (truthy n || _);
      repeat (apply elem_of_cons in Hq as [->|Hq]);
      try (by apply elem_of_nil in Hq);
      cbn [query_part]; rewrite ?append_assoc, ?append_nil_l; reflexivity.
Qed.

Lemma two_widths_visits (base_url : string) (rp : RemoveParams) :
  image_url_set two_widths base_url [".jpg"] rp
  = u1 ← canonicalize base_url rp "/orderfiles/a.jpg?width=800&watermark=1";
    u2 ← canonicalize base_url rp "/orderfiles/a.jpg?width=400&watermark=1";
    Some ({[u1]} ∪ {[u2]}).
Proof.
  unfold image_url_set, Extract.image_url_set.
  change (anchors two_widths)
    with ["/orderfiles/a.jpg?width=800&watermark=1";
          "/orderfiles/a.jpg?width=400&watermark=1"].
  cbn [foldl mbind option_bind]. rewrite !visit_selected.
  replace (selected [".jpg"] "/orderfiles/a.jpg?width=800&watermark=1")
    with (Some true) by (vm_compute; reflexivity).
  destruct (canonicalize base_url rp
              "/orderfiles/a.jpg?width=800&watermark=1") as [u1|]; [|done].
  cbn [mbind option_bind]. rewrite visit_selected.
  replace (selected [".jpg"] "/orderfiles/a.jpg?width=400&watermark=1")
    with (Some true) by (vm_compute; reflexivity).
  destruct (canonicalize base_url rp
              "/orderfiles/a.jpg?width=400&watermark=1") as [u2|]; [|done].
  cbn [mbind option_bind]. by rewrite union_empty_l_L.
Qed.

Lemma canonicalize_stripped (base_url href : string) :
  href ∈ ["/orderfiles/a.jpg?width=800&watermark=1";
          "/orderfiles/a.jpg?width=400&watermark=1"] ->
  canonicalize base_url raw_no_watermark href
  = urljoin base_url "/orderfiles/a.jpg".
Proof.
  intros Hq. unfold canonicalize, Extract.canonicalize.
  repeat (apply elem_of_cons in Hq as [->|Hq]); [..|by apply elem_of_nil in Hq].
  - change "/orderfiles/a.jpg?width=800&watermark=1"
      with ("/orderfiles/a.jpg" +:+ "?width=800&watermark=1").
    rewrite urlparse_orderfiles by in_list. reflexivity.
  - change "/orderfiles/a.jpg?width=400&watermark=1"
      with ("/orderfiles/a.jpg" +:+ "?width=400&watermark=1").
    rewrite urlparse_orderfiles by in_list. reflexivity.
Qed.

Lemma canonicalize_kept (base_url href : string) :
  href ∈ ["/orderfiles/a.jpg?width=800&watermark=1";
          "/orderfiles/a.jpg?width=400&watermark=1"] ->
  canonicalize base_url no_rules href
  = urljoin base_url href.
Proof.
  intros Hq. unfold canonicalize, Extract.canonicalize.
  repeat (apply elem_of_cons in Hq as [->|Hq]); [..|by apply elem_of_nil in Hq].
  - change "/orderfiles/a.jpg?width=800&watermark=1"
      with ("/orderfiles/a.jpg" +:+ "?width=800&watermark=1") at 1.
    rewrite urlparse_orderfiles by in_list. reflexivity.
  - change "/orderfiles/a.jpg?width=400&watermark=1"
      with ("/orderfiles/a.jpg" +:+ "?width=400&watermark=1") at 1.
    rewrite urlparse_orderfiles by in_list. reflexivity.
Qed.

Lemma url_query_orderfiles (x q : string) :
  delimiter_free x = true -> forallb query_char q = true ->
  url_query (x +:+ "/orderfiles/a.jpg" +:+ url_tail q "") = q.
Proof.
  intros Hx Hq. rewrite <- append_assoc. apply url_query_assembled; [|done].
  by rewrite delimiter_free_app, Hx.
Qed.

End Extraction.

End ScenarioFacts.

Module ExtractClaims.
Import PyStr UrlParse Extract Shape StrFacts QueryFacts DictFacts RoundTrip
       UrlFacts ComponentFacts UnparseFacts JoinFacts ExtractFacts ExtractProps
       ScenarioFacts Scenarios.

Lemma parse_field_blank (name : string) :
  has_char "=" name = false -> parse_field (name +:+ "=") = None.
Proof.
  intros Hn. unfold parse_field.
  change (name +:+ "=") with (name +:+ String "=" "").
  by rewrite (split_once_app "=" name "" Hn).
Qed.

(** A field with a blank value is read as if it were not there. *)
Lemma parse_qs_blank_field (fields1 fields2 : list string) (name : string) :
  Forall (fun s => has_char "&" s = false) (fields1 ++ fields2) ->
  has_char "&" name = false ->
  has_char "=" name = false ->
  parse_qs (join "&" (fields1 ++ (name +:+ "=") :: fields2))
  = parse_qs (join "&" (fields1 ++ fields2)).
Proof.
  intros [H1 H2]%Forall_app Hamp Heq. unfold parse_qs. f_equal.
  rewrite !parse_qsl_join.
  - rewrite !omap_app. cbn [omap list_omap].
    by rewrite parse_field_blank.
  - by apply Forall_app.
  - apply Forall_app. split; [done|]. constructor; [|done].
    by rewrite has_char_app, Hamp.
Qed.

Section Extraction.
Variable bracketed_netloc_ok : string -> bool.
Variable nfkc_netloc_ok : string -> bool.

Abbreviation urlparse := (UrlParse.urlparse bracketed_netloc_ok nfkc_netloc_ok).
Abbreviation urljoin := (UrlParse.urljoin bracketed_netloc_ok nfkc_netloc_ok).
Abbreviation selected := (Extract.selected bracketed_netloc_ok nfkc_netloc_ok).
Abbreviation canonicalize :=
  (Extract.canonicalize bracketed_netloc_ok nfkc_netloc_ok).
Abbreviation visit := (Extract.visit bracketed_netloc_ok nfkc_netloc_ok).
Abbreviation image_url_set :=
  (Extract.image_url_set bracketed_netloc_ok nfkc_netloc_ok).
Abbreviation extract_image_urls :=
  (Extract.extract_image_urls bracketed_netloc_ok nfkc_netloc_ok).

(** Two hrefs that differ at most in their queries, and whose queries
    decode to the same dictionary, have the same canonical URL. *)
Lemma canonicalize_same_dict (base_url : string) (rp : RemoveParams)
    (h1 h2 : string) (p1 p2 : ParseResult) :
  urlparse h1 "" = Some p1 -> urlparse h2 "" = Some p2 ->
  scheme p1 = scheme p2 -> netloc p1 = netloc p2 -> path p1 = path p2 ->
  params p1 = params p2 -> fragment p1 = fragment p2 ->
  parse_qs (query p1) = parse_qs (query p2) ->
  canonicalize base_url rp h1 = canonicalize base_url rp h2.
Proof.
  intros Hp1 Hp2 Hs Hn Hpa Hpr Hf Hq.
  unfold canonicalize, Extract.canonicalize. fold urlparse.
  rewrite Hp1, Hp2. cbn [mbind option_bind].
  unfold clean_url, new_query. by rewrite Hs, Hn, Hpa, Hpr, Hf, Hq.
Qed.

(** Two hrefs with the same canonical URL add at most that URL to the
    set. *)
Lemma visit_twice (base_url : string) (extensions : list string)
    (rp : RemoveParams) (h1 h2 : string) (s s1 s2 : gset string)
    (u : string) :
  canonicalize base_url rp h1 = canonicalize base_url rp h2 ->
  visit base_url extensions rp s h1 = Some s1 ->
  visit base_url extensions rp s1 h2 = Some s2 ->
  u ∈ s2 -> u ∈ s \/ canonicalize base_url rp h1 = Some u.
Proof.
  intros Hc. rewrite !visit_selected, <- Hc.
  destruct (selected extensions h1) as [[]|]; [| |done];
    destruct (selected extensions h2) as [[]|]; try done;
    destruct (canonicalize base_url rp h1) as [c|]; simpl; try done;
    intros [= <-] [= <-]; rewrite ?elem_of_union, ?elem_of_singleton;
    intros Hu; decompose [or] Hu; subst; auto.
Qed.

(** C1, as the code has it: the rebuilt query lists the parameters in the
    order in which the href first names them, so two hrefs that differ only
    in their queries get the same canonical URL when these queries decode
    to the same mapping with the keys in the same order; the loop then adds
    at most that one URL for the two of them. *)
Theorem same_ordered_query_same_url (base_url : string) (rp : RemoveParams)
    (h1 h2 : string) (p1 p2 : ParseResult) :
  urlparse h1 "" = Some p1 -> urlparse h2 "" = Some p2 ->
  scheme p1 = scheme p2 -> netloc p1 = netloc p2 -> path p1 = path p2 ->
  params p1 = params p2 -> fragment p1 = fragment p2 ->
  mapping_of (parse_qs (query p1)) = mapping_of (parse_qs (query p2)) ->
  map fst (parse_qs (query p1)) = map fst (parse_qs (query p2)) ->
  canonicalize base_url rp h1 = canonicalize base_url rp h2 /\
  (forall extensions s s1 s2 u,
     visit base_url extensions rp s h1 = Some s1 ->
     visit base_url extensions rp s1 h2 = Some s2 ->
     u ∈ s2 -> u ∈ s \/ canonicalize base_url rp h1 = Some u).
Proof.
  intros Hp1 Hp2 Hs Hn Hpa Hpr Hf Hm Hk.
  assert (Hc : canonicalize base_url rp h1 = canonicalize base_url rp h2).
  { apply (canonicalize_same_dict _ _ _ _ p1 p2); try done.
    apply dict_ext; [|done..]. apply parse_qs_well_formed. }
  split; [done|]. intros extensions s s1 s2 u. by apply visit_twice.
Qed.

(** C10: decoding the query drops every parameter whose value is blank,
    and no rule is needed for that.  An href with a field [name=] has the
    dictionary, and so the canonical URL, of the href without that field;
    no value of the dictionary is blank; and the loop adds at most one URL
    for the two hrefs. *)
Theorem blank_parameter_is_dropped (base_url : string) (rp : RemoveParams)
    (h1 h2 : string) (p1 p2 : ParseResult) (fields1 fields2 : list string)
    (name : string) :
  urlparse h1 "" = Some p1 -> urlparse h2 "" = Some p2 ->
  scheme p1 = scheme p2 -> netloc p1 = netloc p2 -> path p1 = path p2 ->
  params p1 = params p2 -> fragment p1 = fragment p2 ->
  Forall (fun s => has_char "&" s = false) (fields1 ++ fields2) ->
  has_char "&" name = false -> has_char "=" name = false ->
  query p1 = join "&" (fields1 ++ (name +:+ "=") :: fields2) ->
  query p2 = join "&" (fields1 ++ fields2) ->
  parse_qs (query p1) = parse_qs (query p2) /\
  Forall (fun kv => Forall (fun v => v <> "") (snd kv)) (parse_qs (query p1)) /\
  canonicalize base_url rp h1 = canonicalize base_url rp h2 /\
  (forall extensions s s1 s2 u,
     visit base_url extensions rp s h1 = Some s1 ->
     visit base_url extensions rp s1 h2 = Some s2 ->
     u ∈ s2 -> u ∈ s \/ canonicalize base_url rp h1 = Some u).
Proof.
  intros Hp1 Hp2 Hs Hn Hpa Hpr Hf Hfields Hamp Heq Hq1 Hq2.
  assert (Hq : parse_qs (query p1) = parse_qs (query p2)).
  { rewrite Hq1, Hq2. by apply parse_qs_blank_field. }
  assert (Hc : canonicalize base_url rp h1 = canonicalize base_url rp h2)
    by by apply (canonicalize_same_dict _ _ _ _ p1 p2).
  split_and!; [done| |done|].
  - destruct (parse_qs_well_formed (query p1)) as [_ Hv].
    eapply Forall_impl; [exact Hv|]. by intros kv [_ ?].
  - intros extensions s s1 s2 u. by apply visit_twice.
Qed.

(** C7, as the code has it: the result has no duplicate, and a URL is in
    it exactly when it is the canonical URL of an anchor whose href, as a
    whole, contains the marker, and whose parsed path ends, case put
    aside, with one of the extensions as they are given. *)
Theorem extraction_selects_by_href_and_suffix (soup : list Tag)
    (base_url : string) (extensions : list string) (rp : RemoveParams)
    (l : list string) :
  extract_image_urls soup base_url extensions rp = Some l ->
  NoDup l /\
  forall u, u ∈ l <->
    exists href p ext,
      href ∈ anchors soup /\
      contains "/orderfiles/" href = true /\
      urlparse href "" = Some p /\
      ext ∈ extensions /\
      endswith (lower ext) (lower (path p)) = true /\
      urljoin base_url (clean_url rp p) = Some u.
Proof.
  unfold extract_image_urls, Extract.extract_image_urls. fold image_url_set.
  destruct (image_url_set soup base_url extensions rp) as [s|] eqn:Hs;
    [|done].
  intros [= <-]. split; [apply NoDup_elements|].
  intros u. rewrite elem_of_elements.
  rewrite (image_url_set_elements _ _ _ _ _ _ _ Hs u). split.
  - intros (href & Hin & Hsel & Hc).
    apply selected_true in Hsel as (Hm & p & Hp & Hext).
    apply matches_extension_iff in Hext as (ext & Hext & Hend).
    exists href, p, ext. split_and!; try done.
    revert Hc. unfold canonicalize, Extract.canonicalize. fold urlparse.
    by rewrite Hp.
  - intros (href & p & ext & Hin & Hm & Hp & Hext & Hend & Hj).
    exists href. split_and!; [done| |].
    + apply selected_true. split; [done|]. exists p. split; [done|].
      apply matches_extension_iff. by exists ext.
    + unfold canonicalize, Extract.canonicalize. fold urlparse.
      by rewrite Hp.
Qed.

(** The scenario on the default portal: the URLs themselves. *)
Lemma two_widths_on_portal :
  extract_image_urls two_widths portal [".jpg"] raw_no_watermark
  = Some ["https://portal.diakrit.com/orderfiles/a.jpg"] /\
  endswith "/orderfiles/a.jpg" "https://portal.diakrit.com/orderfiles/a.jpg"
  = true /\
  url_query "https://portal.diakrit.com/orderfiles/a.jpg" = "" /\
  (exists l,
     extract_image_urls two_widths portal [".jpg"] no_rules = Some l /\
     length l = 2 /\ NoDup l /\
     "https://portal.diakrit.com/orderfiles/a.jpg?width=800&watermark=1" ∈ l /\
     "https://portal.diakrit.com/orderfiles/a.jpg?width=400&watermark=1" ∈ l) /\
  parse_qs (url_query
    "https://portal.diakrit.com/orderfiles/a.jpg?width=800&watermark=1")
  = [("width", ["800"]); ("watermark", ["1"])] /\
  parse_qs (url_query
    "https://portal.diakrit.com/orderfiles/a.jpg?width=400&watermark=1")
  = [("width", ["400"]); ("watermark", ["1"])].
Proof.
  split_and!; try (vm_compute; reflexivity).
  eexists. split; [vm_compute; reflexivity|]. split; [reflexivity|].
  split_and!.
  - apply NoDup_cons. split; [|apply NoDup_singleton].
    by intros ?%list_elem_of_singleton.
  - right. left.
  - left.
Qed.

(** C6: the scenario of the specification, for every base URL that
    [urlparse] accepts.  With both rules the two anchors give exactly one
    URL, which ends in [/orderfiles/a.jpg] and has an empty query; with no
    rule they give exactly two distinct URLs, whose queries keep the width
    and watermark values of their anchors. *)
Theorem two_widths_scenario (base_url : string) (b : ParseResult) :
  urlparse base_url "" = Some b ->
  (exists u,
     extract_image_urls two_widths base_url [".jpg"] raw_no_watermark
     = Some [u] /\
     endswith "/orderfiles/a.jpg" u = true /\ url_query u = "") /\
  (exists l u1 u2,
     extract_image_urls two_widths base_url [".jpg"] no_rules = Some l /\
     l ≡ₚ [u1; u2] /\ u1 <> u2 /\
     parse_qs (url_query u1) = [("width", ["800"]); ("watermark", ["1"])] /\
     parse_qs (url_query u2) = [("width", ["400"]); ("watermark", ["1"])]).
Proof.
  intros Hb. split.
  - destruct (urljoin_orderfiles bracketed_netloc_ok nfkc_netloc_ok
                base_url "" b) as (x & Hx & Hj); [in_list|done|].
    change ("/orderfiles/a.jpg" +:+ "") with "/orderfiles/a.jpg" in Hj.
    exists (x +:+ "/orderfiles/a.jpg"). split_and!.
    + unfold extract_image_urls, Extract.extract_image_urls.
      rewrite two_widths_visits, !canonicalize_stripped by in_list.
      rewrite Hj. cbn [mbind option_bind]. f_equal.
      rewrite union_idemp_L. apply elements_singleton.
    + apply endswith_app.
    + by apply (url_query_orderfiles x "").
  - destruct (urljoin_orderfiles bracketed_netloc_ok nfkc_netloc_ok
                base_url "?width=800&watermark=1" b)
      as (x1 & Hx1 & Hj1); [in_list|done|].
    destruct (urljoin_orderfiles bracketed_netloc_ok nfkc_netloc_ok
                base_url "?width=400&watermark=1" b)
      as (x2 & Hx2 & Hj2); [in_list|done|].
    change ("/orderfiles/a.jpg" +:+ "?width=800&watermark=1")
      with "/orderfiles/a.jpg?width=800&watermark=1" in Hj1.
    change ("/orderfiles/a.jpg" +:+ "?width=400&watermark=1")
      with "/orderfiles/a.jpg?width=400&watermark=1" in Hj2.
    set (u1 := x1 +:+ "/orderfiles/a.jpg?width=800&watermark=1") in *.
    set (u2 := x2 +:+ "/orderfiles/a.jpg?width=400&watermark=1") in *.
    assert (Hq1 : url_query u1 = "width=800&watermark=1").
    { by apply (url_query_orderfiles x1 "width=800&watermark=1"). }
    assert (Hq2 : url_query u2 = "width=400&watermark=1").
    { by apply (url_query_orderfiles x2 "width=400&watermark=1"). }
    assert (Hne : u1 <> u2).
    { intros Heq. rewrite Heq, Hq2 in Hq1. discriminate Hq1. }
    exists (elements ({[u1]} ∪ {[u2]} : gset string)), u1, u2. split_and!.
    + unfold extract_image_urls, Extract.extract_image_urls.
      rewrite two_widths_visits, !canonicalize_kept by in_list.
      by rewrite Hj1, Hj2.
    + rewrite elements_union_singleton by (by intros ?%elem_of_singleton).
      by rewrite elements_singleton.
    + exact Hne.
    + rewrite Hq1. vm_compute. reflexivity.
    + rewrite Hq2. vm_compute. reflexivity.
Qed.

End Extraction.


Lemma two_widths_scenario_witness :
  UrlParse.urlparse lenient lenient portal ""
  = Some (mkParse "https" "portal.diakrit.com" "" "" "" "") /\
  (exists u,
     Extract.extract_image_urls lenient lenient two_widths portal [".jpg"]
       raw_no_watermark = Some [u] /\
     endswith "/orderfiles/a.jpg" u = true /\ url_query u = "") /\
  (exists l u1 u2,
     Extract.extract_image_urls lenient lenient two_widths portal [".jpg"]
       no_rules = Some l /\
     l ≡ₚ [u1; u2] /\ u1 <> u2 /\
     parse_qs (url_query u1) = [("width", ["800"]); ("watermark", ["1"])] /\
     parse_qs (url_query u2) = [("width", ["400"]); ("watermark", ["1"])]).
Proof.
  split; [vm_compute; reflexivity|].
  apply (two_widths_scenario lenient lenient portal
           (mkParse "https" "portal.diakrit.com" "" "" "" "")).
  vm_compute; reflexivity.
Defined.

Lemma dimensions_are_stripped_witness :
  Extract.canonicalize lenient lenient portal raw_only mixed_case_href
  = Some "https://portal.diakrit.com/orderfiles/a.jpg?Width=1&x=3" /\
  has_key "width" (parse_qs (url_query
    "https://portal.diakrit.com/orderfiles/a.jpg?Width=1&x=3")) = false /\
  has_key "height" (parse_qs (url_query
    "https://portal.diakrit.com/orderfiles/a.jpg?Width=1&x=3")) = false /\
  get "Width" (parse_qs (url_query
    "https://portal.diakrit.com/orderfiles/a.jpg?Width=1&x=3"))
  = get "Width" (parse_qs "Width=1&height=2&x=3&width=800").
Proof.
  assert (Hc : Extract.canonicalize lenient lenient portal raw_only
                 mixed_case_href
               = Some "https://portal.diakrit.com/orderfiles/a.jpg?Width=1&x=3")
    by (vm_compute; reflexivity).
  destruct (dimensions_are_stripped lenient lenient portal mixed_case_href
              "https://portal.diakrit.com/orderfiles/a.jpg?Width=1&x=3"
              raw_only
              (mkParse "" "" "/orderfiles/a.jpg" ""
                       "Width=1&height=2&x=3&width=800" ""))
    as (_ & Hw & Hh & Hkept & _).
  - reflexivity.
  - vm_compute; reflexivity.
  - vm_compute; reflexivity.
  - exact Hc.
  - split; [exact Hc|]. split; [exact Hw|]. split; [exact Hh|].
    apply Hkept. vm_compute. intros H.
    repeat (apply elem_of_cons in H as [H|H]; [discriminate H|]).
    by apply elem_of_nil in H.
Defined.

(** C3 as the specification states it fails on the code: with [raw_image]
    set, the key [Width] of an href stays in the canonical URL with its
    value; and against a base URL that has a query of its own, an href
    without path and query takes over the query of the base, [width]
    included. *)
Lemma capital_width_counterexample :
  Extract.canonicalize lenient lenient portal raw_only capital_width_href
  = Some "https://portal.diakrit.com/orderfiles/a.jpg?Width=800" /\
  get "Width" (parse_qs (url_query
    "https://portal.diakrit.com/orderfiles/a.jpg?Width=800")) = Some ["800"] /\
  Extract.extract_image_urls lenient lenient [a_href fragment_href]
    base_with_query [""] raw_only
  = Some ["https://h/p?width=9#/orderfiles/"] /\
  has_key "width" (parse_qs (url_query "https://h/p?width=9#/orderfiles/"))
  = true.
Proof. repeat split; vm_compute; reflexivity. Qed.

Lemma same_ordered_query_same_url_witness :
  Extract.canonicalize lenient lenient portal no_rules aba_href
  = Some "https://portal.diakrit.com/orderfiles/a.jpg?a=1&a=3&b=2" /\
  Extract.canonicalize lenient lenient portal no_rules aba_href
  = Extract.canonicalize lenient lenient portal no_rules aab_href.
Proof.
  split; [vm_compute; reflexivity|].
  apply (same_ordered_query_same_url lenient lenient portal no_rules
           aba_href aab_href
           (mkParse "" "" "/orderfiles/a.jpg" "" "a=1&b=2&a=3" "")
           (mkParse "" "" "/orderfiles/a.jpg" "" "a=1&a=3&b=2" ""));
    try reflexivity; vm_compute; reflexivity.
Defined.

(** C1 as the specification states it fails on the code: the queries
    [a=1&b=2] and [b=2&a=1] decode to the same mapping, the two hrefs
    differ in nothing else, and their canonical URLs are different strings,
    which both stay in the extraction result. *)
Lemma parameter_order_counterexample :
  mapping_of (parse_qs "a=1&b=2") = mapping_of (parse_qs "b=2&a=1") /\
  UrlParse.urlparse lenient lenient ab_href ""
  = Some (mkParse "" "" "/orderfiles/a.jpg" "" "a=1&b=2" "") /\
  UrlParse.urlparse lenient lenient ba_href ""
  = Some (mkParse "" "" "/orderfiles/a.jpg" "" "b=2&a=1" "") /\
  Extract.canonicalize lenient lenient portal no_rules ab_href
  = Some "https://portal.diakrit.com/orderfiles/a.jpg?a=1&b=2" /\
  Extract.canonicalize lenient lenient portal no_rules ba_href
  = Some "https://portal.diakrit.com/orderfiles/a.jpg?b=2&a=1" /\
  Extract.canonicalize lenient lenient portal no_rules ab_href
  <> Extract.canonicalize lenient lenient portal no_rules ba_href /\
  Extract.extract_image_urls lenient lenient [a_href ab_href; a_href ba_href]
    portal [".jpg"] no_rules
  = Some ["https://portal.diakrit.com/orderfiles/a.jpg?a=1&b=2";
          "https://portal.diakrit.com/orderfiles/a.jpg?b=2&a=1"].
Proof. repeat split; try (vm_compute; reflexivity). vm_compute. discriminate. Qed.

Lemma blank_parameter_is_dropped_witness :
  Extract.canonicalize lenient lenient portal no_rules blank_href
  = Some "https://portal.diakrit.com/orderfiles/a.jpg" /\
  Extract.canonicalize lenient lenient portal no_rules blank_href
  = Extract.canonicalize lenient lenient portal no_rules plain_href /\
  Extract.extract_image_urls lenient lenient
    [a_href blank_href; a_href plain_href] portal [".jpg"] no_rules
  = Some ["https://portal.diakrit.com/orderfiles/a.jpg"].
Proof.
  split; [vm_compute; reflexivity|]. split; [|vm_compute; reflexivity].
  apply (blank_parameter_is_dropped lenient lenient portal no_rules
           blank_href plain_href
           (mkParse "" "" "/orderfiles/a.jpg" "" "watermark=" "")
           (mkParse "" "" "/orderfiles/a.jpg" "" "" "")
           [] [] "watermark");
    try reflexivity; try (vm_compute; reflexivity). constructor.
Defined.

Lemma extraction_selects_by_href_and_suffix_witness :
  Extract.extract_image_urls lenient lenient three_extensions portal
    [".jpg"; ".png"] no_rules
  = Some ["https://portal.diakrit.com/orderfiles/a.jpg";
          "https://portal.diakrit.com/orderfiles/b.png"] /\
  NoDup ["https://portal.diakrit.com/orderfiles/a.jpg";
         "https://portal.diakrit.com/orderfiles/b.png"].
Proof.
  assert (He : Extract.extract_image_urls lenient lenient three_extensions
                 portal [".jpg"; ".png"] no_rules
               = Some ["https://portal.diakrit.com/orderfiles/a.jpg";
                       "https://portal.diakrit.com/orderfiles/b.png"])
    by (vm_compute; reflexivity).
  split; [exact He|].
  exact (proj1 (extraction_selects_by_href_and_suffix lenient lenient
                  three_extensions portal [".jpg"; ".png"] no_rules _ He)).
Defined.

(** C7 as the specification states it fails on the code: an href whose
    path is [/files/a.jpg] and that names the marker in its query only is
    extracted, and so is an href that ends with [jpg] without a dot when the
    extension is given without its dot. *)
Lemma marker_outside_path_counterexample :
  UrlParse.urlparse lenient lenient marker_in_query_href ""
  = Some (mkParse "" "" "/files/a.jpg" "" "from=/orderfiles/" "") /\
  contains "/orderfiles/" "/files/a.jpg" = false /\
  Extract.extract_image_urls lenient lenient [a_href marker_in_query_href]
    portal [".jpg"] no_rules
  = Some ["https://portal.diakrit.com/files/a.jpg?from=%2Forderfiles%2F"] /\
  Extract.extract_image_urls lenient lenient [a_href dotless_href]
    portal ["jpg"] no_rules
  = Some ["https://portal.diakrit.com/orderfiles/notjpg"].
Proof. repeat split; vm_compute; reflexivity. Qed.

End ExtractClaims.

(** ** The download of one image *)

Module DownloadProps.
Import PyStr UrlParse Download StrFacts.

Lemma write_body_chunks (path : string) (chunks : list string)
    (rest : list Step) (c : string) (f : gmap string Node) :
  f !! path = Some (File c) ->
  write_body path (map Chunk chunks ++ rest) f =
  write_body path rest (<[path := File (c +:+ received chunks)]> f).
Proof.
  revert c f. induction chunks as [|d chunks IH]; intros c f Hf; simpl.
  - by rewrite append_nil_r, insert_id.
  - destruct d as [|a d]; simpl.
    + by apply IH.
    + unfold write at 1. rewrite Hf.
      rewrite (IH (c +:+ String a d)) by apply lookup_insert_eq.
      by rewrite insert_insert_eq, append_assoc.
Qed.

Lemma write_body_interrupted (path : string) (chunks : list string)
    (s : Step) (rest : list Step) (e : Exn) (f : gmap string Node) :
  step_failure s = Some e ->
  write_body path (map Chunk chunks ++ s :: rest) (open_wb path f) =
  (<[path := File (received chunks)]> f, Some e).
Proof.
  intros Hs. unfold open_wb.
  rewrite (write_body_chunks _ _ _ "") by apply lookup_insert_eq.
  rewrite insert_insert_eq, append_nil_l.
  by destruct s; simplify_eq/=.
Qed.

Section Attempt.
Variable bracketed_netloc_ok : string -> bool.
Variable nfkc_netloc_ok : string -> bool.
Variable w : World.

Abbreviation local_filename :=
  (Download.local_filename bracketed_netloc_ok nfkc_netloc_ok).
Abbreviation attempt := (Download.attempt bracketed_netloc_ok nfkc_netloc_ok w).
Abbreviation download_image :=
  (Download.download_image bracketed_netloc_ok nfkc_netloc_ok w).

Lemma attempt_exists (url output_dir local : string) (st : State) :
  local_filename url output_dir = Some local ->
  is_Some (fs st !! local) ->
  attempt url output_dir st = (say (AlreadyExists local) st, Returned).
Proof.
  intros Hl Hex. unfold attempt, Download.attempt. rewrite Hl.
  unfold exists_path. by rewrite bool_decide_eq_true_2.
Qed.

Lemma download_image_exists (url output_dir local : string) (st : State) :
  local_filename url output_dir = Some local ->
  is_Some (fs st !! local) ->
  download_image url output_dir st = (say (AlreadyExists local) st, Returned).
Proof.
  intros Hl Hex. unfold download_image, Download.download_image. simpl.
  by rewrite (attempt_exists _ _ local).
Qed.

Lemma attempt_interrupted (url output_dir local : string) (st : State)
    (chunks : list string) (s : Step) (rest : list Step) (e : Exn) :
  local_filename url output_dir = Some local ->
  fs st !! local = None ->
  fetch w (length (requests st)) url
    = Response true (map Chunk chunks ++ s :: rest) ->
  can_open w (length (requests st)) local = true ->
  step_failure s = Some e ->
  attempt url output_dir st =
  (mkState (<[local := File (received chunks)]> (fs st))
           (requests st ++ [url]) (slept st)
           (messages st ++ [failure_message e url]),
   Raised e).
Proof.
  intros Hl Hno Hfetch Hopen Hs. unfold attempt, Download.attempt.
  rewrite Hl. unfold exists_path.
  rewrite bool_decide_eq_false_2 by (rewrite Hno; by intros [? ?]).
  rewrite Hfetch, Hopen. simpl.
  by rewrite (write_body_interrupted _ _ _ _ e).
Qed.

Lemma attempt_no_answer (url output_dir local : string) (st : State) :
  local_filename url output_dir = Some local ->
  fs st !! local = None ->
  fetch w (length (requests st)) url = ConnectionFails ->
  attempt url output_dir st =
  (mkState (fs st) (requests st ++ [url]) (slept st)
           (messages st ++ [FailedToDownload url]),
   Raised RequestException).
Proof.
  intros Hl Hno Hfetch. unfold attempt, Download.attempt.
  rewrite Hl. unfold exists_path.
  rewrite bool_decide_eq_false_2 by (rewrite Hno; by intros [? ?]).
  by rewrite Hfetch.
Qed.

(** Three attempts and two waits of two seconds: a server that never
    answers is asked three times, and [RetryError] is raised. *)
Lemma download_image_no_answer (url output_dir local : string) (st : State) :
  local_filename url output_dir = Some local ->
  fs st !! local = None ->
  (forall n, fetch w n url = ConnectionFails) ->
  download_image url output_dir st =
  (mkState (fs st) (requests st ++ [url; url; url]) (slept st + 4)
           (messages st ++ [FailedToDownload url; FailedToDownload url;
                            FailedToDownload url]),
   Raised RetryError).
Proof.
  intros Hl Hno Hfetch. unfold download_image, Download.download_image. simpl.
  rewrite (attempt_no_answer _ _ local) by done.
  rewrite (attempt_no_answer _ _ local) by done. simpl.
  rewrite (attempt_no_answer _ _ local) by done. simpl.
  unfold wait_fixed. do 2 f_equal; [|lia | ]; by rewrite <- !(assoc_L (++)).
Qed.

(** C4: when the derived local filename is already a file of the output
    directory, [download_image] returns at its first attempt with the
    message "Already exists": the list of requests is the one it started
    with (no fetch), no wait has been added (no retry), and the filesystem
    is the one it started with (the file is untouched). *)
Theorem existing_file_is_skipped (url output_dir local content : string)
    (st : State) :
  local_filename url output_dir = Some local ->
  fs st !! local = Some (File content) ->
  download_image url output_dir st =
  (mkState (fs st) (requests st) (slept st)
           (messages st ++ [AlreadyExists local]),
   Returned).
Proof.
  intros Hl Hf. by rewrite (download_image_exists _ _ local).
Qed.

(** C9: the existence test is inside the retried body.  When the first
    attempt has opened the final path, has written some chunks and is then
    ended by a failing step, the second attempt finds the path, says
    "Already exists" and returns: one request, one wait of two seconds, the
    partial bytes kept under the final name, and a normal return instead of
    a failure. *)
Theorem partial_file_is_skipped_on_retry (url output_dir local : string)
    (st : State) (chunks : list string) (s : Step) (rest : list Step)
    (e : Exn) :
  local_filename url output_dir = Some local ->
  fs st !! local = None ->
  fetch w (length (requests st)) url
    = Response true (map Chunk chunks ++ s :: rest) ->
  can_open w (length (requests st)) local = true ->
  step_failure s = Some e ->
  download_image url output_dir st =
  (mkState (<[local := File (received chunks)]> (fs st))
           (requests st ++ [url]) (slept st + 2)
           (messages st ++ [failure_message e url; AlreadyExists local]),
   Returned).
Proof.
  intros Hl Hno Hfetch Hopen Hs.
  unfold download_image, Download.download_image. simpl.
  rewrite (attempt_interrupted _ _ local _ chunks s rest e) by done.
  rewrite (attempt_exists _ _ local); [|done|].
  - unfold say, sleep, wait_fixed. simpl. by rewrite <- (assoc_L (++)).
  - simpl. rewrite lookup_insert_eq. by eexists.
Qed.

(** C5, as the code has it: the bytes go straight to the final path.  An
    attempt that is interrupted after some chunks leaves the filesystem it
    found with one more file, the final path holding the bytes received so
    far; every other path is as before, so there is no staging file.  A
    later call from any state with that filesystem, whatever the server
    would answer, returns with "Already exists" without a request: the
    partial file is kept. *)
Theorem interrupted_write_leaves_final_path (url output_dir local : string)
    (st : State) (chunks : list string) (s : Step) (rest : list Step)
    (e : Exn) :
  local_filename url output_dir = Some local ->
  fs st !! local = None ->
  fetch w (length (requests st)) url
    = Response true (map Chunk chunks ++ s :: rest) ->
  can_open w (length (requests st)) local = true ->
  step_failure s = Some e ->
  let st1 := (attempt url output_dir st).1 in
  (attempt url output_dir st).2 = Raised e /\
  fs st1 = <[local := File (received chunks)]> (fs st) /\
  (forall other, other <> local -> fs st1 !! other = fs st !! other) /\
  (forall (w' : World) (st2 : State),
     fs st2 = fs st1 ->
     Download.download_image bracketed_netloc_ok nfkc_netloc_ok w'
       url output_dir st2 =
     (mkState (fs st2) (requests st2) (slept st2)
              (messages st2 ++ [AlreadyExists local]),
      Returned)).
Proof.
  intros Hl Hno Hfetch Hopen Hs.
  rewrite (attempt_interrupted _ _ local _ chunks s rest e) by done.
  simpl. split_and!; [done..| |].
  - intros other Hne. by rewrite lookup_insert_ne.
  - intros w' st2 Hfs.
    unfold Download.download_image. simpl.
    unfold Download.attempt. fold local_filename. rewrite Hl.
    unfold exists_path. rewrite bool_decide_eq_true_2; [done|].
    rewrite Hfs, lookup_insert_eq. by eexists.
Qed.

End Attempt.

Import Scenarios.

Lemma existing_file_is_skipped_witness :
  Download.local_filename lenient lenient a_url out_dir = Some a_local /\
  fs a_present !! a_local = Some (File "old bytes") /\
  Download.download_image lenient lenient dead_server a_url out_dir a_present =
  (mkState (fs a_present) [] 0 [AlreadyExists a_local], Returned).
Proof.
  assert (H1 : Download.local_filename lenient lenient a_url out_dir
               = Some a_local) by (vm_compute; reflexivity).
  assert (H2 : fs a_present !! a_local = Some (File "old bytes"))
    by (vm_compute; reflexivity).
  split; [exact H1|]. split; [exact H2|].
  exact (existing_file_is_skipped lenient lenient dead_server
           a_url out_dir a_local "old bytes" a_present H1 H2).
Defined.

Lemma partial_file_is_skipped_on_retry_witness :
  Download.download_image lenient lenient flaky_server a_url out_dir empty_state =
  (mkState (<[a_local := File "abc"]> ∅) [a_url] 2
           [FailedToDownload a_url; AlreadyExists a_local],
   Returned).
Proof.
  apply (partial_file_is_skipped_on_retry lenient lenient flaky_server
           a_url out_dir a_local empty_state ["abc"] ReadFails [Chunk "def"]
           RequestException).
  - vm_compute; reflexivity.
  - vm_compute; reflexivity.
  - reflexivity.
  - reflexivity.
  - reflexivity.
Defined.

Lemma interrupted_write_leaves_final_path_witness :
  let st1 := (Download.attempt lenient lenient flaky_server
                a_url out_dir empty_state).1 in
  fs st1 = <[a_local := File "abc"]> ∅ /\
  Download.download_image lenient lenient good_server a_url out_dir st1 =
  (mkState (fs st1) (requests st1) (slept st1)
           (messages st1 ++ [AlreadyExists a_local]),
   Returned).
Proof.
  destruct (interrupted_write_leaves_final_path lenient lenient flaky_server
              a_url out_dir a_local empty_state ["abc"] ReadFails
              [Chunk "def"] RequestException)
    as (_ & Hfs & _ & Hnext).
  - vm_compute; reflexivity.
  - vm_compute; reflexivity.
  - reflexivity.
  - reflexivity.
  - reflexivity.
  - split; [exact Hfs|]. apply Hnext. reflexivity.
Defined.

(** C5 as the specification states it fails on the code: after an attempt
    that the server interrupts behind the first chunk, the final path
    [downloaded_images/a.jpg] is a file with the three bytes received, it is
    the only path of the filesystem (nothing was staged elsewhere), and the
    next run, against a server that would deliver all six bytes, makes no
    request and leaves the three bytes in place. *)
Lemma interrupted_write_counterexample :
  let first := Download.attempt lenient lenient flaky_server
                 a_url out_dir empty_state in
  let next := Download.download_image lenient lenient good_server
                a_url out_dir (mkState (fs first.1) [] 0 []) in
  first.2 = Raised RequestException /\
  fs first.1 !! a_local = Some (File "abc") /\
  dom (fs first.1) = {[ a_local ]} /\
  next.2 = Returned /\
  requests next.1 = [] /\
  messages next.1 = [AlreadyExists a_local] /\
  fs next.1 !! a_local = Some (File "abc").
Proof. cbv zeta. repeat split; vm_compute; reflexivity. Qed.

End DownloadProps.

(** ** The retry bound *)

Module RetryFacts.
Import PyStr UrlParse Download StrFacts.

Section Attempt.
Variable bracketed_netloc_ok : string -> bool.
Variable nfkc_netloc_ok : string -> bool.
Variable w : World.

Abbreviation attempt := (Download.attempt bracketed_netloc_ok nfkc_netloc_ok w).
Abbreviation download_image :=
  (Download.download_image bracketed_netloc_ok nfkc_netloc_ok w).

(** One attempt makes at most one request and does not wait. *)
Lemma attempt_effect (url output_dir : string) (st : State) :
  slept (attempt url output_dir st).1 = slept st /\
  exists k, k <= 1 /\
    requests (attempt url output_dir st).1 = requests st ++ replicate k url.
Proof.
  unfold attempt, Download.attempt, fail.
  assert (Hzero : exists k, k <= 1 /\
            requests st = requests st ++ replicate k url)
    by (exists 0; split; [lia|]; by rewrite app_nil_r).
  destruct (Download.local_filename _ _ _ _) as [local|]; simpl; [|done].
  destruct (exists_path local (fs st)); simpl; [done|].
  assert (Hone : exists k, k <= 1 /\
            requests st ++ [url] = requests st ++ replicate k url)
    by (exists 1; split; [lia|done]).
  destruct (fetch w (length (requests st)) url) as [|[] body]; simpl;
    [done| |done].
  destruct (can_open w (length (requests st)) local); simpl; [|done].
  destruct (write_body local body _) as [f [e|]]; done.
Qed.

(** The decorated call makes at most [remaining] requests, waits two
    seconds between two attempts and never after the last one, and either
    returns or raises [RetryError]. *)
Lemma retry_bounds (remaining : nat) (url output_dir : string) (st : State) :
  let r := retry remaining (attempt url output_dir) st in
  (exists k, k <= remaining /\
     requests r.1 = requests st ++ replicate k url) /\
  slept r.1 <= slept st + wait_fixed * (remaining - 1) /\
  (r.2 = Returned \/ r.2 = Raised RetryError).
Proof.
  revert st. induction remaining as [|n IH]; intros st.
  - simpl. split; [|split].
    + exists 0. by rewrite app_nil_r.
    + lia.
    + by right.
  - cbn [retry].
    destruct (attempt_effect url output_dir st) as (Hs & k & Hk & Hr).
    destruct (attempt url output_dir st) as [st' [|e]]; cbn [fst snd] in *.
    + split; [|split].
      * exists k. split; [lia|done].
      * lia.
      * by left.
    + destruct n as [|n].
      * cbn [fst snd]. split; [|split].
        -- exists k. split; [lia|done].
        -- lia.
        -- by right.
      * specialize (IH (sleep wait_fixed st')).
        destruct IH as ((k' & Hk' & Hr') & Hs' & Hres).
        split; [|split].
        -- exists (k + k'). split; [lia|].
           rewrite Hr'. cbn [sleep requests]. rewrite Hr, replicate_add.
           by rewrite (assoc_L (++)).
        -- cbn [sleep slept] in Hs'. unfold wait_fixed in *. lia.
        -- done.
Qed.

(** X17: a call of [download_image] makes at most three requests, all of
    them for its URL, waits four seconds at most, and either returns or
    raises [RetryError], whatever the server and the disk do. *)
Lemma download_image_bounds (url output_dir : string) (st : State) :
  let r := download_image url output_dir st in
  (exists k, k <= 3 /\ requests r.1 = requests st ++ replicate k url) /\
  slept r.1 <= slept st + 4 /\
  (r.2 = Returned \/ r.2 = Raised RetryError).
Proof. apply (retry_bounds 3). Qed.

End Attempt.

End RetryFacts.

(** ** The run as a whole *)

Module MainProps.
Import PyStr UrlParse Extract Download Main Scenarios.

Section Run.
Variable bracketed_netloc_ok : string -> bool.
Variable nfkc_netloc_ok : string -> bool.

Abbreviation main := (Main.main bracketed_netloc_ok nfkc_netloc_ok).

(** The parallel branch never raises: the exceptions stay in the futures. *)
Lemma download_parallel_returns (w : World) (urls : list string)
    (output_dir : string) (st : State) :
  (Download.download_parallel bracketed_netloc_ok nfkc_netloc_ok
     w urls output_dir st).2 = Returned.
Proof.
  revert st. induction urls as [|url urls IH]; intros st; [done|]. apply IH.
Qed.

(** No content from the listing page: exit status 1. *)
Lemma main_no_content (env : Env) (args : Args) (st : State) :
  get_html_content env (get_page_url (base_url args) (order_id args)) = "" ->
  (main env args st).2 = 1.
Proof.
  intros Hhtml. unfold main, Main.main. rewrite Hhtml.
  destruct (UrlParse.urlparse _ _ _ _); [|done].
  by destruct (makedirs _ _).
Qed.

(** X19: in parallel mode the exit status is 0 as soon as the listing page
    has content and one image URL is found, whatever happens to the
    images. *)
Lemma main_parallel_exit_0 (env : Env) (args : Args) (st : State)
    (p : ParseResult) (f : gmap string Node) (url : string)
    (urls : list string) :
  parallel args = true ->
  let page_url := get_page_url (base_url args) (order_id args) in
  UrlParse.urlparse bracketed_netloc_ok nfkc_netloc_ok page_url "" = Some p ->
  makedirs (output args) (fs st) = Some f ->
  get_html_content env page_url <> "" ->
  Extract.extract_image_urls bracketed_netloc_ok nfkc_netloc_ok
    (BeautifulSoup env (get_html_content env page_url))
    (scheme p +:+ "://" +:+ netloc p) (extensions args) (removal_rules args)
  = Some (url :: urls) ->
  (main env args st).2 = 0.
Proof.
  intros Hpar page_url Hp Hmk Hhtml Hex. unfold main, Main.main.
  fold page_url. rewrite Hp, Hmk.
  destruct (get_html_content env page_url) eqn:Hc; [done|]. simpl.
  rewrite Hex, Hpar.
  pose proof (download_parallel_returns (world env) (url :: urls)
                (output args) (set_fs f st)) as Hret.
  destruct (Download.download_parallel _ _ _ _ _ _) as [st' r].
  simpl in Hret. by subst r.
Qed.

(** The sequential loop stops at the first image whose download raises:
    the images behind it are not visited. *)
Lemma download_sequential_stops (w : World) (url : string)
    (rest : list string) (output_dir : string) (st st' : State) (e : Exn) :
  Download.download_image bracketed_netloc_ok nfkc_netloc_ok
    w url output_dir st = (st', Raised e) ->
  Download.download_sequential bracketed_netloc_ok nfkc_netloc_ok
    w (url :: rest) output_dir st = (st', Raised e).
Proof. intros Hd. cbn [Download.download_sequential]. by rewrite Hd. Qed.

(** X23: in sequential mode the exit status is 1 when the first image
    cannot be downloaded, although the listing page has content and image
    URLs are found; the state is the one that the failed download leaves,
    so the images behind the first one are not requested. *)
Lemma main_sequential_exit_1 (env : Env) (args : Args) (st st' : State)
    (p : ParseResult) (f : gmap string Node) (url : string)
    (urls : list string) (e : Exn) :
  parallel args = false ->
  let page_url := get_page_url (base_url args) (order_id args) in
  UrlParse.urlparse bracketed_netloc_ok nfkc_netloc_ok page_url "" = Some p ->
  makedirs (output args) (fs st) = Some f ->
  get_html_content env page_url <> "" ->
  Extract.extract_image_urls bracketed_netloc_ok nfkc_netloc_ok
    (BeautifulSoup env (get_html_content env page_url))
    (scheme p +:+ "://" +:+ netloc p) (extensions args) (removal_rules args)
  = Some (url :: urls) ->
  Download.download_image bracketed_netloc_ok nfkc_netloc_ok
    (world env) url (output args) (set_fs f st) = (st', Raised e) ->
  main env args st = (st', 1).
Proof.
  intros Hpar page_url Hp Hmk Hhtml Hex Hd. unfold main, Main.main.
  fold page_url. rewrite Hp, Hmk.
  destruct (get_html_content env page_url) eqn:Hc; [done|]. simpl.
  rewrite Hex, Hpar.
  by rewrite (download_sequential_stops _ _ urls _ _ _ _ Hd).
Qed.

End Run.

(** C2, at an input where the code leaves it: a sequential run over a
    listing of two images whose first image never answers.  The first image
    is asked three times with two waits of two seconds, then [RetryError]
    leaves the loop and [main]: the second image is never requested and the
    exit status is 1.  The same listing in parallel mode asks for both
    images, stores the second one and ends with status 0. *)
Theorem sequential_failure_aborts_run :
  let seq := Main.main lenient lenient (listing a_down_server)
               sequential_args empty_state in
  let par := Main.main lenient lenient (listing a_down_server)
               parallel_args empty_state in
  requests seq.1 = [a_url; a_url; a_url] /\
  slept seq.1 = 4 /\
  fs seq.1 !! b_local = None /\
  seq.2 = 1 /\
  requests par.1 = [a_url; a_url; a_url; b_url] /\
  fs par.1 !! b_local = Some (File "abcdef") /\
  par.2 = 0.
Proof. cbv zeta. repeat split; vm_compute; reflexivity. Qed.

(** C8, at an input where the code leaves it: the listing page has content
    and two image URLs are found, the image server never answers, and the
    sequential run ends with exit status 1, where the parallel run over the
    same listing ends with 0. *)
Theorem sequential_failure_exit_status :
  get_html_content (listing dead_server)
    (get_page_url (base_url sequential_args) (order_id sequential_args))
  = "<html>listing</html>" /\
  Extract.extract_image_urls lenient lenient
    (BeautifulSoup (listing dead_server) "<html>listing</html>")
    portal [".jpg"] no_rules = Some [a_url; b_url] /\
  (Main.main lenient lenient (listing dead_server)
     sequential_args empty_state).2 = 1 /\
  (Main.main lenient lenient (listing dead_server)
     parallel_args empty_state).2 = 0.
Proof. cbv zeta. repeat split; vm_compute; reflexivity. Qed.

End MainProps.

(** ** The query string, decoded and encoded again *)

Module QueryProps.
Import PyStr UrlParse Extract Shape Views Cases StrFacts QueryFacts DictFacts
       RoundTrip ExtractProps.

(** X1: [unquote_plus] undoes [quote_plus] on every byte string, and what
    [quote_plus] writes consists of letters, digits and the characters
    [_.-~+%] only. *)
Theorem quoting_round_trip (s : string) :
  unquote_plus (quote_plus s) = s /\
  forallb quoted_char (quote_plus s) = true.
Proof.
  split; [apply unquote_plus_quote_plus|apply quote_plus_chars].
Qed.

(** X2: the dictionary that [parse_qs] makes of any text has distinct keys,
    and each key has a list of values that is not empty and holds no empty
    value. *)
Theorem parsed_query_is_well_formed (qs : string) : well_formed (parse_qs qs).
Proof.
  unfold parse_qs. apply fold_dict_add_well_formed.
  - apply parse_qsl_values.
  - apply well_formed_nil.
Qed.

(** X3: [parse_qs] undoes [urlencode] with [doseq=True] on every
    dictionary of that shape: the keys come back in the same order, each
    with its values in the same order. *)
Theorem query_round_trip (d : dict) :
  well_formed d -> parse_qs (urlencode d) = d.
Proof.
  intros [Hnd Hv]. unfold parse_qs. rewrite parse_qsl_urlencode.
  - apply (fold_items d []); [exact Hnd|].
    eapply Forall_impl; [exact Hv|]. by intros kv [? _].
  - eapply Forall_impl; [exact Hv|]. by intros kv [_ ?].
Qed.

Lemma query_round_trip_witness :
  well_formed two_names /\ parse_qs (urlencode two_names) = two_names.
Proof.
  assert (H : well_formed two_names).
  { split.
    - apply (bool_decide_unpack _). vm_compute. reflexivity.
    - repeat constructor; done. }
  split; [exact H|]. apply (query_round_trip two_names H).
Defined.

Lemma get_dict_add (k n v : string) (d : dict) :
  get k (dict_add n v d)
  = if String.eqb n k then Some (default [] (get k d) ++ [v]) else get k d.
Proof.
  induction d as [|[k' vs] d IH]; cbn [dict_add get].
  - by destruct (String.eqb n k).
  - destruct (String.eqb k' n) eqn:E1.
    + apply String.eqb_eq in E1 as ->. cbn [get].
      by destruct (String.eqb n k).
    + cbn [get]. destruct (String.eqb k' k) eqn:E2.
      * apply String.eqb_eq in E2 as ->.
        rewrite String.eqb_sym in E1. by rewrite E1.
      * exact IH.
Qed.

Lemma get_fold (k : string) (l : list (string * string)) (d : dict) :
  get k (fold_left (fun d nv => dict_add (fst nv) (snd nv) d) l d)
  = match get k d, values_of k l with
    | None, [] => None
    | o, vs => Some (default [] o ++ vs)
    end.
Proof.
  revert d. induction l as [|[n v] l IH]; intros d.
  - cbn. destruct (get k d); [by rewrite app_nil_r|done].
  - cbn [fold_left fst snd]. rewrite IH, get_dict_add.
    unfold values_of. cbn [List.filter fst].
    destruct (String.eqb n k); cbn [map snd]; [|done].
    destruct (get k d) as [vs|]; simpl; [|done].
    by rewrite <- (assoc_L (++)).
Qed.

(** X4: a name of the query has, in the dictionary, the list of all the
    values that the query gives to it, in the order of the query; a name
    to which the query gives no value is not a key. *)
Theorem parse_qs_values (k qs : string) :
  get k (parse_qs qs)
  = match values_of k (parse_qsl qs) with
    | [] => None
    | vs => Some vs
    end.
Proof.
  unfold parse_qs. rewrite get_fold. cbn [get].
  by destruct (values_of k (parse_qsl qs)).
Qed.

(** X5: the query that the code rebuilds is written with letters, digits
    and the characters [_.-~+%=&] only: it has no [#], no [?] and no
    space, whatever the href held. *)
Theorem rebuilt_query_alphabet (rp : RemoveParams) (p : ParseResult) :
  forallb query_char (new_query rp p) = true /\
  has_char "#" (new_query rp p) = false /\
  has_char "?" (new_query rp p) = false /\
  has_char " " (new_query rp p) = false.
Proof.
  assert (H : forallb query_char (new_query rp p) = true)
    by apply urlencode_chars.
  split_and!; [exact H|..]; by apply (forallb_has_char query_char).
Qed.

Lemma filter_keys_idemp (ks : list string) (d : dict) :
  List.filter (fun kv => bool_decide (fst kv ∉ ks))
              (List.filter (fun kv => bool_decide (fst kv ∉ ks)) d)
  = List.filter (fun kv => bool_decide (fst kv ∉ ks)) d.
Proof.
  induction d as [|kv d IH]; [done|]. cbn [List.filter].
  destruct (bool_decide (kv.1 ∉ ks)) eqn:E; [|done].
  cbn [List.filter]. by rewrite E, IH.
Qed.

(** Removing the named keys a second time changes nothing. *)
Lemma remove_keys_idemp (rp : RemoveParams) (d : dict) :
  remove_keys rp (remove_keys rp d) = remove_keys rp d.
Proof. rewrite !remove_keys_filter. apply filter_keys_idemp. Qed.

(** X6: the rebuilt query is a fixed point of the rebuilding: parsing it,
    removing the keys and encoding again gives the same text. *)
Theorem new_query_stable (rp : RemoveParams) (p : ParseResult) :
  new_query rp (mkParse (scheme p) (netloc p) (path p) (params p)
                        (new_query rp p) (fragment p))
  = new_query rp p.
Proof.
  unfold new_query at 1. cbn [query].
  by rewrite parse_new_query, remove_keys_idemp.
Qed.

End QueryProps.

(** ** Extraction: removed keys, failures and the set of anchors *)

Module ExtractMore.
Import PyStr UrlParse Extract Shape Views Cases Scenarios StrFacts QueryFacts
       DictFacts RoundTrip UrlFacts ComponentFacts UnparseFacts JoinFacts
       ExtractFacts ExtractProps.

Section Extraction.
Variable bracketed_netloc_ok : string -> bool.
Variable nfkc_netloc_ok : string -> bool.

Abbreviation urlparse := (UrlParse.urlparse bracketed_netloc_ok nfkc_netloc_ok).
Abbreviation urljoin := (UrlParse.urljoin bracketed_netloc_ok nfkc_netloc_ok).
Abbreviation selected := (Extract.selected bracketed_netloc_ok nfkc_netloc_ok).
Abbreviation canonicalize :=
  (Extract.canonicalize bracketed_netloc_ok nfkc_netloc_ok).
Abbreviation visit := (Extract.visit bracketed_netloc_ok nfkc_netloc_ok).
Abbreviation image_url_set :=
  (Extract.image_url_set bracketed_netloc_ok nfkc_netloc_ok).
Abbreviation extract_image_urls :=
  (Extract.extract_image_urls bracketed_netloc_ok nfkc_netloc_ok).
Abbreviation visit_raises :=
  (Views.visit_raises bracketed_netloc_ok nfkc_netloc_ok).

(** X7: against a base URL without a query, the canonical URL has none of
    the keys that the rules name besides the dimensions: [watermark] under
    [no_watermark], and every key of [additional_params]. *)
Theorem named_keys_are_removed (base_url href full : string)
    (rp : RemoveParams) (p : ParseResult) (k : string) :
  url_query base_url = "" ->
  urlparse href "" = Some p ->
  canonicalize base_url rp href = Some full ->
  (no_watermark rp = true /\ k = "watermark") \/ k ∈ additional_params rp ->
  has_key k (parse_qs (url_query full)) = false.
Proof.
  intros Hbase Hp Hc Hk.
  rewrite (canonicalize_query _ _ _ _ _ rp p Hbase Hp Hc), parse_new_query.
  apply removed_key_absent. unfold removed_keys.
  rewrite !elem_of_app. destruct Hk as [[-> ->]|Hk]; [|by right; right].
  right. left. left.
Qed.

(** The query of the canonical URL is the rebuilt query whenever that one
    is not empty, whatever the base URL. *)
Lemma canonicalize_nonempty_query (base_url href full : string)
    (rp : RemoveParams) (p : ParseResult) :
  truthy (new_query rp p) = true ->
  urlparse href "" = Some p ->
  canonicalize base_url rp href = Some full ->
  url_query full = new_query rp p.
Proof.
  intros Hq Hp. unfold canonicalize, Extract.canonicalize.
  fold urlparse. rewrite Hp. cbn [mbind option_bind]. fold urljoin.
  destruct (urlparse_shape _ _ _ _ _ Hp eq_refl) as [(Hs & Hn & Hpa & Hpr) _].
  destruct (urlunparse_assembled
              (mkParse (scheme p) (netloc p) (path p) (params p)
                       (new_query rp p) (fragment p)))
    as (x & Hx & Hclean); [by split_and!|].
  cbn [query fragment] in Hclean. intros Hjoin.
  eapply url_query_urljoin; [exact Hclean|exact Hx| |by left|exact Hjoin].
  apply urlencode_chars.
Qed.

(** X8: when some parameter of the href is left after the removal, the
    canonical URL carries exactly the remaining parameters, whatever the
    base URL is: a query of the base URL never replaces or joins them. *)
Theorem remaining_parameters_survive_join (base_url href full : string)
    (rp : RemoveParams) (p : ParseResult) :
  urlparse href "" = Some p ->
  remove_keys rp (parse_qs (query p)) <> [] ->
  canonicalize base_url rp href = Some full ->
  parse_qs (url_query full) = remove_keys rp (parse_qs (query p)).
Proof.
  intros Hp Hne Hc.
  rewrite (canonicalize_nonempty_query base_url href full rp p);
    [apply parse_new_query| |done..].
  destruct (new_query rp p) eqn:E; [|done].
  pose proof (parse_new_query rp p) as H. rewrite E in H.
  change (parse_qs "") with (@nil (string * list string)) in H. congruence.
Qed.

Lemma foldl_visit_None (base_url : string) (extensions : list string)
    (rp : RemoveParams) (hrefs : list string) :
  foldl (fun acc href => s ← acc; visit base_url extensions rp s href)
        None hrefs = None.
Proof. induction hrefs as [|h hrefs IH]; [done|]. apply IH. Qed.

Lemma foldl_visit_raises (base_url : string) (extensions : list string)
    (rp : RemoveParams) (hrefs : list string) (s0 : gset string) :
  foldl (fun acc href => s ← acc; visit base_url extensions rp s href)
        (Some s0) hrefs = None <->
  exists href, href ∈ hrefs /\ visit_raises base_url extensions rp href.
Proof.
  revert s0. induction hrefs as [|h hrefs IH]; intros s0.
  - split; [done|]. intros (h & Hh & _). by apply elem_of_nil in Hh.
  - cbn [foldl mbind option_bind]. rewrite visit_selected.
    unfold visit_raises, Views.visit_raises.
    destruct (selected extensions h) as [[]|] eqn:Hsel.
    + destruct (canonicalize base_url rp h) as [full|] eqn:Hc;
        cbn [mbind option_bind].
      * rewrite IH. split.
        -- intros (h' & Hh' & Hr). exists h'. split; [by right|done].
        -- intros (h' & Hh' & Hr).
           apply elem_of_cons in Hh' as [->|Hh']; [|by exists h'].
           destruct Hr as [Hr|[_ Hr]]; congruence.
      * rewrite foldl_visit_None. split; [|done]. intros _.
        exists h. split; [left|]. by right.
    + rewrite IH. split.
      * intros (h' & Hh' & Hr). exists h'. split; [by right|done].
      * intros (h' & Hh' & Hr).
        apply elem_of_cons in Hh' as [->|Hh']; [|by exists h'].
        destruct Hr as [Hr|[Hr _]]; congruence.
    + rewrite foldl_visit_None. split; [|done]. intros _.
      exists h. split; [left|]. by left.
Qed.

(** The loop raises exactly when its body raises for one of the anchors. *)
Lemma image_url_set_raises_iff (soup : list Tag) (base_url : string)
    (extensions : list string) (rp : RemoveParams) :
  image_url_set soup base_url extensions rp = None <->
  exists href, href ∈ anchors soup /\
               visit_raises base_url extensions rp href.
Proof. apply foldl_visit_raises. Qed.

(** X9: one anchor with the marker whose href [urlparse] rejects makes the
    whole extraction raise: no URL is returned, whatever the other anchors
    are. *)
Theorem malformed_href_aborts_extraction (soup : list Tag)
    (base_url : string) (extensions : list string) (rp : RemoveParams)
    (href : string) :
  href ∈ anchors soup ->
  contains "/orderfiles/" href = true ->
  urlparse href "" = None ->
  extract_image_urls soup base_url extensions rp = None.
Proof.
  intros Hin Hm Hp.
  assert (Hs : image_url_set soup base_url extensions rp = None).
  { apply image_url_set_raises_iff. exists href.
    split; [done|]. left. unfold selected, Extract.selected.
    fold urlparse. by rewrite Hm, Hp. }
  unfold extract_image_urls, Extract.extract_image_urls.
  fold (image_url_set soup base_url extensions rp). by rewrite Hs.
Qed.

(** X10: the set of URLs at the end of the loop, and whether the loop
    raises, depend on the set of hrefs of the anchors only: their order
    and their repetitions do not matter. *)
Theorem extraction_depends_on_href_set (soup1 soup2 : list Tag)
    (base_url : string) (extensions : list string) (rp : RemoveParams) :
  (forall href, href ∈ anchors soup1 <-> href ∈ anchors soup2) ->
  image_url_set soup1 base_url extensions rp
  = image_url_set soup2 base_url extensions rp.
Proof.
  intros Hsame.
  pose proof (image_url_set_raises_iff soup1 base_url extensions rp) as H1.
  pose proof (image_url_set_raises_iff soup2 base_url extensions rp) as H2.
  destruct (image_url_set soup1 base_url extensions rp) as [s1|] eqn:E1;
    destruct (image_url_set soup2 base_url extensions rp) as [s2|] eqn:E2.
  - f_equal. apply set_eq. intros u.
    rewrite (image_url_set_elements _ _ _ _ _ _ _ E1 u).
    rewrite (image_url_set_elements _ _ _ _ _ _ _ E2 u).
    split; intros (h & Hh & Hr); exists h; (split; [by apply Hsame|done]).
  - exfalso. destruct H2 as [H2 _]. destruct (H2 eq_refl) as (h & Hh & Hr).
    destruct H1 as [_ H1]. discriminate H1.
    exists h. split; [by apply Hsame|done].
  - exfalso. destruct H1 as [H1 _]. destruct (H1 eq_refl) as (h & Hh & Hr).
    destruct H2 as [_ H2]. discriminate H2.
    exists h. split; [by apply Hsame|done].
  - done.
Qed.

(** Every URL of the extraction result is free of the keys that the rules
    name, when the base URL has no query. *)
Lemma extracted_urls_lack_removed_keys (soup : list Tag)
    (base_url : string) (extensions : list string) (rp : RemoveParams)
    (s : gset string) (u k : string) :
  url_query base_url = "" ->
  image_url_set soup base_url extensions rp = Some s ->
  u ∈ s -> k ∈ removed_keys rp ->
  has_key k (parse_qs (url_query u)) = false.
Proof.
  intros Hbase Hs Hu Hk.
  apply (image_url_set_elements _ _ _ _ _ _ _ Hs) in Hu
    as (href & _ & Hsel & Hc).
  apply selected_true in Hsel as (_ & p & Hp & _).
  rewrite (canonicalize_query _ _ _ _ _ rp p Hbase Hp Hc), parse_new_query.
  by apply removed_key_absent.
Qed.

End Extraction.

Lemma named_keys_are_removed_witness :
  Extract.canonicalize lenient lenient portal watermark_and_foo marked_href
  = Some "https://portal.diakrit.com/orderfiles/a.jpg?x=3" /\
  has_key "foo" (parse_qs (url_query
    "https://portal.diakrit.com/orderfiles/a.jpg?x=3")) = false.
Proof.
  split; [vm_compute; reflexivity|].
  apply (named_keys_are_removed lenient lenient portal marked_href _
           watermark_and_foo
           (mkParse "" "" "/orderfiles/a.jpg" "" "watermark=1&foo=2&x=3" "")
           "foo");
    [vm_compute; reflexivity..|].
  right. vm_compute. left.
Defined.

Lemma remaining_parameters_survive_join_witness :
  UrlParse.urlparse lenient lenient sized_href ""
  = Some (mkParse "" "" "/orderfiles/a.jpg" "" "width=1&x=3" "") /\
  Extract.canonicalize lenient lenient base_with_query raw_only sized_href
  = Some "https://h/orderfiles/a.jpg?x=3" /\
  parse_qs (url_query "https://h/orderfiles/a.jpg?x=3")
  = remove_keys raw_only (parse_qs "width=1&x=3").
Proof.
  split; [vm_compute; reflexivity|]. split; [vm_compute; reflexivity|].
  apply (remaining_parameters_survive_join lenient lenient base_with_query
           sized_href _ raw_only
           (mkParse "" "" "/orderfiles/a.jpg" "" "width=1&x=3" ""));
    [vm_compute; reflexivity|vm_compute; discriminate|vm_compute; reflexivity].
Defined.

Lemma malformed_href_aborts_extraction_witness :
  UrlParse.urlparse lenient lenient bracket_href "" = None /\
  Extract.extract_image_urls lenient lenient
    [a_href plain_href; a_href bracket_href] portal [".jpg"] no_rules = None.
Proof.
  split; [vm_compute; reflexivity|].
  apply (malformed_href_aborts_extraction lenient lenient _ _ _ _
           bracket_href);
    [|vm_compute; reflexivity..].
  vm_compute. right. left.
Defined.

Lemma extraction_depends_on_href_set_witness :
  Extract.image_url_set lenient lenient
    [a_href ab_href; a_href plain_href; a_href ab_href] portal [".jpg"]
    no_rules
  = Extract.image_url_set lenient lenient
      [a_href plain_href; a_href ab_href] portal [".jpg"] no_rules.
Proof.
  apply (extraction_depends_on_href_set lenient lenient).
  intros href.
  change (anchors [a_href ab_href; a_href plain_href; a_href ab_href])
    with [ab_href; plain_href; ab_href].
  change (anchors [a_href plain_href; a_href ab_href])
    with [plain_href; ab_href].
  rewrite !elem_of_cons, !elem_of_nil. tauto.
Defined.

End ExtractMore.

(** ** What a download does to the disk *)

Module DownloadMore.
Import PyStr UrlParse Download Views Cases Scenarios StrFacts DownloadProps
       RetryFacts.

Lemma has_char_after_last_same (c : ascii) (s : string) :
  has_char c (after_last c s) = false.
Proof.
  induction s as [|a s IH]; [done|]. cbn [after_last].
  destruct (has_char c s) eqn:E; [done|].
  destruct (Ascii.eqb a c) eqn:Ea; [done|].
  cbn [has_char]. by rewrite Ea, E.
Qed.

Lemma write_frame (path data other : string) (f : gmap string Node) :
  other <> path -> write path data f !! other = f !! other.
Proof.
  intros Hne. unfold write. destruct (f !! path) as [[c|]|]; [|done..].
  by rewrite lookup_insert_ne.
Qed.

Lemma write_body_frame (path other : string) (body : list Step)
    (f : gmap string Node) :
  other <> path -> (write_body path body f).1 !! other = f !! other.
Proof.
  intros Hne. revert f. induction body as [|[data| |] body IH]; intros f;
    cbn [write_body fst]; [done| |done..].
  rewrite IH. destruct (truthy data); [by apply write_frame|done].
Qed.

Section Attempt.
Variable bracketed_netloc_ok : string -> bool.
Variable nfkc_netloc_ok : string -> bool.
Variable w : World.

Abbreviation local_filename :=
  (Download.local_filename bracketed_netloc_ok nfkc_netloc_ok).
Abbreviation attempt := (Download.attempt bracketed_netloc_ok nfkc_netloc_ok w).
Abbreviation download_image :=
  (Download.download_image bracketed_netloc_ok nfkc_netloc_ok w).
Abbreviation download_sequential :=
  (Download.download_sequential bracketed_netloc_ok nfkc_netloc_ok w).
Abbreviation download_parallel :=
  (Download.download_parallel bracketed_netloc_ok nfkc_netloc_ok w).
Abbreviation reports := (Views.reports bracketed_netloc_ok nfkc_netloc_ok).

(** X11: the local filename is the output directory followed by a name
    without a slash: the file lies in the output directory itself,
    whatever the URL is. *)
Theorem local_filename_in_output_dir (url output_dir local : string) :
  local_filename url output_dir = Some local ->
  exists name,
    has_char "/" name = false /\
    local = if negb (truthy output_dir) || endswith "/" output_dir
            then output_dir +:+ name
            else output_dir +:+ "/" +:+ name.
Proof.
  unfold local_filename, Download.local_filename.
  destruct (UrlParse.urlparse _ _ url "") as [p|]; [|done].
  cbn [mbind option_bind]. intros [= <-].
  exists (OsPath.basename (path p)).
  pose proof (has_char_after_last_same "/" (path p)) as Hn.
  split; [exact Hn|]. unfold OsPath.join.
  fold (OsPath.basename (path p)) in Hn.
  destruct (OsPath.basename (path p)) as [|a n]; [done|].
  cbn [has_char] in Hn. apply orb_false_elim in Hn as [Ha _].
  cbn [startswith]. rewrite Ascii.eqb_sym in Ha. by rewrite Ha.
Qed.

(** One attempt leaves every path but the local filename as it is. *)
Lemma attempt_frame (url output_dir other : string) (st : State) :
  local_filename url output_dir <> Some other ->
  fs (attempt url output_dir st).1 !! other = fs st !! other.
Proof.
  intros Hne. unfold attempt, Download.attempt, fail.
  fold (local_filename url output_dir).
  destruct (local_filename url output_dir) as [local|]; simpl; [|done].
  assert (Ho : other <> local) by congruence.
  destruct (exists_path local (fs st)); simpl; [done|].
  destruct (fetch w (length (requests st)) url) as [|[] body]; simpl;
    [done| |done].
  destruct (can_open w (length (requests st)) local); simpl; [|done].
  pose proof (write_body_frame local other body (open_wb local (fs st)) Ho)
    as Hf.
  destruct (write_body local body _) as [f [e|]]; simpl in *;
    rewrite Hf; unfold open_wb; by rewrite lookup_insert_ne.
Qed.

(** One attempt leaves every path that exists as it is. *)
Lemma attempt_keeps (url output_dir path : string) (node : Node) (st : State) :
  fs st !! path = Some node ->
  fs (attempt url output_dir st).1 !! path = Some node.
Proof.
  intros Hp.
  destruct (decide (local_filename url output_dir = Some path)) as [Hl|Hl].
  - rewrite (attempt_exists _ _ _ _ _ path); [done|done|by eexists].
  - by rewrite attempt_frame.
Qed.

Lemma retry_keeps (remaining : nat) (url output_dir path : string)
    (node : Node) (st : State) :
  fs st !! path = Some node ->
  fs (retry remaining (attempt url output_dir) st).1 !! path = Some node.
Proof.
  revert st. induction remaining as [|n IH]; intros st Hp; [done|].
  cbn [retry]. pose proof (attempt_keeps url output_dir path node st Hp) as Ha.
  destruct (attempt url output_dir st) as [st' [|e]]; cbn [fst] in *; [done|].
  destruct n as [|n]; [done|]. by apply IH.
Qed.

Lemma retry_frame (remaining : nat) (url output_dir other : string)
    (st : State) :
  local_filename url output_dir <> Some other ->
  fs (retry remaining (attempt url output_dir) st).1 !! other = fs st !! other.
Proof.
  intros Hne. revert st. induction remaining as [|n IH]; intros st; [done|].
  cbn [retry]. pose proof (attempt_frame url output_dir other st Hne) as Ha.
  destruct (attempt url output_dir st) as [st' [|e]]; cbn [fst] in *; [done|].
  destruct n as [|n]; [done|]. by rewrite IH.
Qed.

(** X12: a call of [download_image], with all its attempts, changes no
    path of the filesystem but the local filename of its URL. *)
Theorem download_image_touches_one_path (url output_dir other : string)
    (st : State) :
  local_filename url output_dir <> Some other ->
  fs (download_image url output_dir st).1 !! other = fs st !! other.
Proof. intros Hne. by apply retry_frame. Qed.

(** X13: a call of [download_image] never changes or removes what exists
    when it starts: a file keeps its bytes, whatever the server sends. *)
Theorem download_image_keeps_existing (url output_dir path : string)
    (node : Node) (st : State) :
  fs st !! path = Some node ->
  fs (download_image url output_dir st).1 !! path = Some node.
Proof. intros Hp. by apply retry_keeps. Qed.

Lemma attempt_refused (url output_dir local : string) (st : State) :
  local_filename url output_dir = Some local ->
  fs st !! local = None ->
  refused (fetch w (length (requests st)) url) = true ->
  attempt url output_dir st =
  (mkState (fs st) (requests st ++ [url]) (slept st)
           (messages st ++ [FailedToDownload url]),
   Raised RequestException).
Proof.
  intros Hl Hno Hfetch. unfold attempt, Download.attempt.
  fold (local_filename url output_dir).
  rewrite Hl. unfold exists_path.
  rewrite bool_decide_eq_false_2 by (rewrite Hno; by intros [? ?]).
  by destruct (fetch w (length (requests st)) url) as [|[] body].
Qed.

(** X14: when no request for the URL gets a success status, the call
    makes exactly three requests with two waits of two seconds, says three
    times that the download failed, leaves the filesystem as it is and
    raises [RetryError]. *)
Theorem refused_download_gives_up (url output_dir local : string)
    (st : State) :
  local_filename url output_dir = Some local ->
  fs st !! local = None ->
  (forall n, refused (fetch w n url) = true) ->
  download_image url output_dir st =
  (mkState (fs st) (requests st ++ [url; url; url]) (slept st + 4)
           (messages st ++ [FailedToDownload url; FailedToDownload url;
                            FailedToDownload url]),
   Raised RetryError).
Proof.
  intros Hl Hno Hfetch. unfold download_image, Download.download_image. simpl.
  rewrite (attempt_refused _ _ local) by done.
  rewrite (attempt_refused _ _ local) by done. simpl.
  rewrite (attempt_refused _ _ local) by done. simpl.
  unfold wait_fixed. do 2 f_equal; [|lia | ]; by rewrite <- !(assoc_L (++)).
Qed.

Lemma attempt_complete (url output_dir local : string) (st : State)
    (chunks : list string) :
  local_filename url output_dir = Some local ->
  fs st !! local = None ->
  fetch w (length (requests st)) url = Response true (map Chunk chunks) ->
  can_open w (length (requests st)) local = true ->
  attempt url output_dir st =
  (mkState (<[local := File (received chunks)]> (fs st))
           (requests st ++ [url]) (slept st)
           (messages st ++ [Downloaded local]),
   Returned).
Proof.
  intros Hl Hno Hfetch Hopen. unfold attempt, Download.attempt.
  fold (local_filename url output_dir).
  rewrite Hl. unfold exists_path.
  rewrite bool_decide_eq_false_2 by (rewrite Hno; by intros [? ?]).
  rewrite Hfetch, Hopen. simpl.
  rewrite <- (app_nil_r (map Chunk chunks)). unfold open_wb.
  rewrite (write_body_chunks _ _ _ "") by apply lookup_insert_eq.
  by rewrite insert_insert_eq, append_nil_l.
Qed.

Lemma download_image_complete (url output_dir local : string)
    (st : State) (chunks : list string) :
  local_filename url output_dir = Some local ->
  fs st !! local = None ->
  fetch w (length (requests st)) url = Response true (map Chunk chunks) ->
  can_open w (length (requests st)) local = true ->
  download_image url output_dir st =
  (mkState (<[local := File (received chunks)]> (fs st))
           (requests st ++ [url]) (slept st)
           (messages st ++ [Downloaded local]),
   Returned).
Proof.
  intros Hl Hno Hfetch Hopen.
  unfold download_image, Download.download_image. simpl.
  by rewrite (attempt_complete _ _ local _ chunks).
Qed.

(** X15: when the file is not there, the first request is answered with a
    success status and all chunks arrive, the call returns after one
    request and no wait, and the local filename holds the chunks in the
    order of their arrival; no other path is changed. *)
Theorem complete_download_stores_body (url output_dir local : string)
    (st : State) (chunks : list string) :
  local_filename url output_dir = Some local ->
  fs st !! local = None ->
  fetch w (length (requests st)) url = Response true (map Chunk chunks) ->
  can_open w (length (requests st)) local = true ->
  let r := download_image url output_dir st in
  r = (mkState (<[local := File (received chunks)]> (fs st))
               (requests st ++ [url]) (slept st)
               (messages st ++ [Downloaded local]),
       Returned) /\
  fs r.1 !! local = Some (File (received chunks)) /\
  (forall other, other <> local -> fs r.1 !! other = fs st !! other).
Proof.
  intros Hl Hno Hfetch Hopen r. unfold r.
  rewrite (download_image_complete _ _ local _ chunks) by done.
  cbn [fst fs]. split_and!; [done|apply lookup_insert_eq|].
  intros other Hne. by rewrite lookup_insert_ne.
Qed.

(** X16: two URLs with the same local filename share one file: in a
    sequential run the first is downloaded, and the second is reported as
    already there without a request, so its bytes are never stored. *)
Theorem same_name_is_downloaded_once (url1 url2 output_dir local : string)
    (st : State) (chunks : list string) :
  local_filename url1 output_dir = Some local ->
  local_filename url2 output_dir = Some local ->
  fs st !! local = None ->
  fetch w (length (requests st)) url1 = Response true (map Chunk chunks) ->
  can_open w (length (requests st)) local = true ->
  download_sequential [url1; url2] output_dir st =
  (mkState (<[local := File (received chunks)]> (fs st))
           (requests st ++ [url1]) (slept st)
           (messages st ++ [Downloaded local; AlreadyExists local]),
   Returned).
Proof.
  intros Hl1 Hl2 Hno Hfetch Hopen. cbn [Download.download_sequential].
  rewrite (download_image_complete _ _ local _ chunks) by done.
  rewrite (download_image_exists _ _ _ _ _ local); [|done|].
  - unfold say. simpl. by rewrite <- (assoc_L (++)).
  - simpl. rewrite lookup_insert_eq. by eexists.
Qed.

(** Every attempt prints exactly one message, about its URL. *)
Lemma attempt_reports (url output_dir : string) (st : State) :
  exists m, reports url output_dir m /\
            messages (attempt url output_dir st).1 = messages st ++ [m].
Proof.
  unfold attempt, Download.attempt, fail.
  fold (local_filename url output_dir).
  destruct (local_filename url output_dir) as [local|] eqn:Hl; simpl.
  2:{ by exists (ErrorDownloading url). }
  destruct (exists_path local (fs st)); simpl.
  { exists (AlreadyExists local). split; [exact Hl|done]. }
  destruct (fetch w (length (requests st)) url) as [|[] body]; simpl.
  - by exists (FailedToDownload url).
  - destruct (can_open w (length (requests st)) local); simpl.
    + destruct (write_body local body _) as [f [e|]]; simpl.
      * exists (failure_message e url). split; [by destruct e|done].
      * exists (Downloaded local). split; [exact Hl|done].
    + by exists (ErrorDownloading url).
  - by exists (FailedToDownload url).
Qed.

Lemma retry_reports (remaining : nat) (url output_dir : string) (st : State) :
  exists ms, Forall (reports url output_dir) ms /\
             (0 < remaining -> ms <> []) /\
             messages (retry remaining (attempt url output_dir) st).1
             = messages st ++ ms.
Proof.
  revert st. induction remaining as [|n IH]; intros st.
  - exists []. split_and!; [done|lia|by rewrite app_nil_r].
  - cbn [retry].
    destruct (attempt_reports url output_dir st) as (m & Hm & Hmsg).
    destruct (attempt url output_dir st) as [st' [|e]]; cbn [fst] in *.
    + exists [m]. split_and!; [by constructor|done|done].
    + destruct n as [|n].
      * exists [m]. split_and!; [by constructor|done|done].
      * destruct (IH (sleep wait_fixed st')) as (ms & Hms & _ & Hmsgs).
        exists (m :: ms). split_and!; [by constructor|done|].
        rewrite Hmsgs. cbn [sleep messages]. rewrite Hmsg.
        by rewrite <- (assoc_L (++)).
Qed.

(** A call of [download_image] adds at least one message, and only
    messages about its URL. *)
Lemma download_image_reports (url output_dir : string) (st : State) :
  exists m ms, reports url output_dir m /\
               messages (download_image url output_dir st).1
               = messages st ++ m :: ms.
Proof.
  destruct (retry_reports 3 url output_dir st) as (ms & Hms & Hne & Hmsg).
  destruct ms as [|m ms]; [by destruct Hne; [lia|]|].
  exists m, ms. split; [by inversion Hms|exact Hmsg].
Qed.

Lemma download_parallel_messages (urls : list string) (output_dir : string)
    (st : State) :
  exists ms, messages (download_parallel urls output_dir st).1
             = messages st ++ ms.
Proof.
  revert st. induction urls as [|url urls IH]; intros st.
  - exists []. by rewrite app_nil_r.
  - cbn [Download.download_parallel].
    destruct (download_image_reports url output_dir st) as (m & ms & _ & Hm).
    destruct (IH (download_image url output_dir st).1) as (ms' & Hms').
    exists (m :: ms ++ ms'). rewrite Hms', Hm.
    by rewrite <- (assoc_L (++)).
Qed.

(** X18: in parallel mode every URL of the list is reported on: whatever
    happens to the other downloads, the run prints for each URL that it is
    downloaded, that it exists already, or that it failed. *)
Theorem parallel_run_reports_every_url (urls : list string)
    (output_dir : string) (st : State) (url : string) :
  url ∈ urls ->
  exists m, m ∈ messages (download_parallel urls output_dir st).1 /\
            reports url output_dir m.
Proof.
  revert st. induction urls as [|u urls IH]; intros st Hin.
  - by apply elem_of_nil in Hin.
  - cbn [Download.download_parallel].
    apply elem_of_cons in Hin as [->|Hin]; [|by apply IH].
    destruct (download_image_reports u output_dir st) as (m & ms & Hr & Hm).
    destruct (download_parallel_messages urls output_dir
                (download_image u output_dir st).1) as (ms' & Hms').
    exists m. split; [|exact Hr]. rewrite Hms', Hm.
    rewrite !elem_of_app. left. right. left.
Qed.

End Attempt.

Lemma local_filename_in_output_dir_witness :
  Download.local_filename lenient lenient wide_url out_dir = Some a_local /\
  exists name,
    has_char "/" name = false /\ a_local = out_dir +:+ "/" +:+ name.
Proof.
  split; [vm_compute; reflexivity|].
  apply (local_filename_in_output_dir lenient lenient wide_url out_dir).
  vm_compute. reflexivity.
Defined.

Lemma download_image_touches_one_path_witness :
  fs (Download.download_image lenient lenient flaky_server b_url out_dir
        a_present).1 !! a_local
  = Some (File "old bytes").
Proof.
  apply (download_image_touches_one_path lenient lenient flaky_server
           b_url out_dir a_local a_present).
  vm_compute. discriminate.
Defined.

Lemma download_image_keeps_existing_witness :
  fs (Download.download_image lenient lenient good_server a_url out_dir
        a_present).1 !! a_local
  = Some (File "old bytes").
Proof.
  apply (download_image_keeps_existing lenient lenient good_server
           a_url out_dir a_local (File "old bytes") a_present).
  vm_compute. reflexivity.
Defined.

Lemma refused_download_gives_up_witness :
  Download.download_image lenient lenient refusing_server a_url out_dir
    empty_state
  = (mkState ∅ [a_url; a_url; a_url] 4
       [FailedToDownload a_url; FailedToDownload a_url;
        FailedToDownload a_url],
     Raised RetryError).
Proof.
  apply (refused_download_gives_up lenient lenient refusing_server
           a_url out_dir a_local empty_state);
    [vm_compute; reflexivity|vm_compute; reflexivity|].
  intros n. reflexivity.
Defined.

Lemma complete_download_stores_body_witness :
  let r := Download.download_image lenient lenient good_server a_url out_dir
             empty_state in
  r = (mkState (<[a_local := File "abcdef"]> ∅) [a_url] 0
         [Downloaded a_local],
       Returned) /\
  fs r.1 !! a_local = Some (File "abcdef") /\
  (forall other, other <> a_local -> fs r.1 !! other = None).
Proof.
  apply (complete_download_stores_body lenient lenient good_server
           a_url out_dir a_local empty_state ["abc"; "def"]);
    vm_compute; reflexivity.
Defined.

Lemma same_name_is_downloaded_once_witness :
  Download.download_sequential lenient lenient good_server
    [wide_url; narrow_url] out_dir empty_state
  = (mkState (<[a_local := File "abcdef"]> ∅) [wide_url] 0
       [Downloaded a_local; AlreadyExists a_local],
     Returned).
Proof.
  apply (same_name_is_downloaded_once lenient lenient good_server
           wide_url narrow_url out_dir a_local empty_state ["abc"; "def"]);
    vm_compute; reflexivity.
Defined.

Lemma parallel_run_reports_every_url_witness :
  exists m,
    m ∈ messages (Download.download_parallel lenient lenient a_down_server
                    [a_url; b_url] out_dir empty_state).1 /\
    Views.reports lenient lenient b_url out_dir m.
Proof.
  apply (parallel_run_reports_every_url lenient lenient a_down_server
           [a_url; b_url] out_dir empty_state b_url).
  right. left.
Defined.

End DownloadMore.

(** ** The listing page *)

Module PageFacts.
Import PyStr UrlParse Extract Main Shape Views Cases Scenarios StrFacts
       QueryFacts DictFacts RoundTrip UrlFacts.

Lemma pretty_N_char_safe (d : N) : always_safe (pretty_N_char d) = true.
Proof. unfold pretty_N_char. by repeat case_match. Qed.

Lemma pretty_N_go_safe (x : N) (s : string) :
  forallb always_safe s = true ->
  forallb always_safe (pretty_N_go x s) = true.
Proof.
  revert s. induction (N.lt_wf_0 x) as [x _ IH]; intros s Hs.
  assert (x = 0 \/ 0 < x)%N as [->|Hx] by lia; [done|].
  rewrite pretty_N_go_step by done. apply IH; [by apply N.div_lt|].
  cbn [forallb]. by rewrite pretty_N_char_safe.
Qed.

Lemma pretty_N_go_truthy (x : N) (s : string) :
  truthy s = true -> truthy (pretty_N_go x s) = true.
Proof.
  revert s. induction (N.lt_wf_0 x) as [x _ IH]; intros s Hs.
  assert (x = 0 \/ 0 < x)%N as [->|Hx] by lia; [done|].
  rewrite pretty_N_go_step by done. apply IH; [by apply N.div_lt|done].
Qed.

Lemma pretty_positive_safe (x : positive) :
  forallb always_safe (pretty x) = true /\ truthy (pretty x) = true.
Proof.
  unfold pretty, pretty_positive, pretty, pretty_N.
  rewrite decide_False by done.
  split; [by apply pretty_N_go_safe|].
  rewrite pretty_N_go_step by done. by apply pretty_N_go_truthy.
Qed.

(** The decimal text of an integer is not empty and consists of digits and
    a minus sign, which [quote_plus] leaves as they are. *)
Lemma pretty_Z_safe (n : Z) :
  forallb always_safe (pretty n) = true /\ truthy (pretty n) = true.
Proof.
  destruct n as [|x|x]; [done|apply pretty_positive_safe|].
  destruct (pretty_positive_safe x) as [Hs Ht].
  unfold pretty, pretty_Z. fold (pretty x).
  change ("-" +:+ pretty x) with (String "-" (pretty x)).
  split; [|done]. cbn [forallb]. by rewrite Hs.
Qed.

Lemma quote_plus_safe (s : string) :
  forallb always_safe s = true -> quote_plus s = s.
Proof.
  induction s as [|a s IH]; [done|]. cbn [forallb quote_plus].
  intros [Ha Hs]%andb_true_iff. unfold quote_plus_byte.
  rewrite Ha, IH by done. reflexivity.
Qed.

Lemma always_safe_query_char (s : string) :
  forallb always_safe s = true -> forallb query_char s = true.
Proof.
  apply forallb_impl. intros c Hc. unfold query_char, quoted_char.
  by rewrite Hc.
Qed.

(** The dictionary of a query with one parameter whose name and value need
    no quoting. *)
Lemma parse_qs_single (k v : string) :
  forallb always_safe k = true -> forallb always_safe v = true ->
  truthy v = true ->
  parse_qs (k +:+ "=" +:+ v) = [(k, [v])].
Proof.
  intros Hk Hv Ht. unfold parse_qs, parse_qsl.
  rewrite !truthy_app. cbn [truthy]. rewrite orb_true_r.
  rewrite split_no_sep.
  - cbn [omap list_omap].
    rewrite <- (quote_plus_safe k Hk) at 1.
    rewrite <- (quote_plus_safe v Hv) at 1.
    rewrite parse_field_encoded, Ht. reflexivity.
  - rewrite !has_char_app.
    rewrite (forallb_has_char always_safe "&" k eq_refl Hk).
    rewrite (forallb_has_char always_safe "&" v eq_refl Hv). done.
Qed.

(** X20: the page URL names the order: for every base URL without [?]
    and [#] and every order id, the query of the page URL is [orderid=]
    followed by the decimal order id, and it decodes to that one
    parameter. *)
Theorem page_url_names_the_order (base_url : string) (order_id : Z) :
  delimiter_free base_url = true ->
  url_query (get_page_url base_url order_id) = "orderid=" +:+ pretty order_id /\
  parse_qs (url_query (get_page_url base_url order_id))
  = [("orderid", [pretty order_id])].
Proof.
  intros Hb. destruct (pretty_Z_safe order_id) as [Hs Ht].
  assert (Hq : url_query (get_page_url base_url order_id)
               = "orderid=" +:+ pretty order_id).
  { unfold get_page_url.
    change (base_url +:+ "/backend/general/photos/seller?orderid="
            +:+ pretty order_id)
      with (base_url +:+ "/backend/general/photos/seller"
            +:+ String "?" ("orderid=" +:+ pretty order_id)).
    rewrite <- append_assoc.
    rewrite <- (append_nil_r (String "?" _)).
    apply (url_query_assembled "" _ ("orderid=" +:+ pretty order_id) "").
    - by rewrite delimiter_free_app, Hb.
    - rewrite forallb_app. by rewrite (always_safe_query_char _ Hs). }
  split; [exact Hq|]. rewrite Hq.
  by apply (parse_qs_single "orderid").
Qed.

Lemma page_url_names_the_order_witness :
  url_query (get_page_url portal 13011948) = "orderid=13011948" /\
  parse_qs (url_query (get_page_url portal 13011948))
  = [("orderid", ["13011948"])].
Proof.
  apply (page_url_names_the_order portal 13011948). vm_compute. reflexivity.
Defined.

End PageFacts.

(** ** The requests of a run *)

Module RunFacts.
Import PyStr UrlParse Extract Download Main Shape Views Cases Scenarios
       StrFacts ExtractFacts ExtractProps ExtractMore RetryFacts MainProps.

Section Run.
Variable bracketed_netloc_ok : string -> bool.
Variable nfkc_netloc_ok : string -> bool.

Abbreviation main := (Main.main bracketed_netloc_ok nfkc_netloc_ok).
Abbreviation download_image :=
  (Download.download_image bracketed_netloc_ok nfkc_netloc_ok).
Abbreviation download_sequential :=
  (Download.download_sequential bracketed_netloc_ok nfkc_netloc_ok).
Abbreviation download_parallel :=
  (Download.download_parallel bracketed_netloc_ok nfkc_netloc_ok).
Abbreviation image_url_set :=
  (Extract.image_url_set bracketed_netloc_ok nfkc_netloc_ok).

Lemma download_image_requests (w : World) (url output_dir : string)
    (st : State) (u : string) :
  u ∈ requests (download_image w url output_dir st).1 ->
  u ∈ requests st \/ u = url.
Proof.
  destruct (retry_bounds bracketed_netloc_ok nfkc_netloc_ok
              w 3 url output_dir st) as ((k & _ & Hr) & _).
  unfold download_image, Download.download_image, stop_after_attempt.
  rewrite Hr, elem_of_app. intros [?|Hu]; [by left|right].
  by apply elem_of_replicate in Hu as [-> _].
Qed.

Lemma download_sequential_requests (w : World) (urls : list string)
    (output_dir : string) (st : State) (u : string) :
  u ∈ requests (download_sequential w urls output_dir st).1 ->
  u ∈ requests st \/ u ∈ urls.
Proof.
  revert st. induction urls as [|url urls IH]; intros st; [by left|].
  cbn [Download.download_sequential].
  pose proof (download_image_requests w url output_dir st u) as Hd.
  destruct (download_image w url output_dir st) as [st' [|e]];
    cbn [fst] in *.
  - intros [Hu| Hu]%IH; [|right; by right].
    destruct (Hd Hu) as [?| ->]; [by left|right; left].
  - intros Hu. destruct (Hd Hu) as [?| ->]; [by left|right; left].
Qed.

Lemma download_parallel_requests (w : World) (urls : list string)
    (output_dir : string) (st : State) (u : string) :
  u ∈ requests (download_parallel w urls output_dir st).1 ->
  u ∈ requests st \/ u ∈ urls.
Proof.
  revert st. induction urls as [|url urls IH]; intros st; [by left|].
  cbn [Download.download_parallel].
  intros [Hu| Hu]%IH; [|right; by right].
  destruct (download_image_requests w url output_dir st u Hu) as [?| ->];
    [by left|right; left].
Qed.

(** The image requests of a run go to URLs of the extraction result. *)
Lemma main_requests (env : Env) (args : Args) (st : State) (u : string) :
  u ∈ requests (main env args st).1 ->
  u ∈ requests st \/
  exists p s,
    UrlParse.urlparse bracketed_netloc_ok nfkc_netloc_ok
      (get_page_url (base_url args) (order_id args)) "" = Some p /\
    image_url_set
      (BeautifulSoup env
         (get_html_content env (get_page_url (base_url args) (order_id args))))
      (scheme p +:+ "://" +:+ netloc p) (extensions args) (removal_rules args)
    = Some s /\ u ∈ s.
Proof.
  unfold main, Main.main.
  set (page_url := get_page_url (base_url args) (order_id args)).
  destruct (UrlParse.urlparse _ _ page_url "") as [p|] eqn:Hp; [|by left].
  destruct (makedirs (output args) (fs st)) as [f|]; [|by left].
  destruct (negb (truthy (get_html_content env page_url))); [by left|].
  unfold Extract.extract_image_urls.
  fold (image_url_set (BeautifulSoup env (get_html_content env page_url))
          (scheme p +:+ "://" +:+ netloc p) (extensions args)
          (removal_rules args)).
  destruct (image_url_set _ _ _ _) as [s|] eqn:Hs; cbn [mbind option_bind];
    [|by left].
  destruct (elements s) as [|x l] eqn:El; [by left|].
  intros Hu.
  assert (Hin : u ∈ requests st \/ u ∈ x :: l).
  { destruct (parallel args).
    - pose proof (download_parallel_requests (world env) (x :: l)
                    (output args) (set_fs f st) u) as Hd.
      destruct (download_parallel _ _ _ _) as [st' [|e]]; by apply Hd.
    - pose proof (download_sequential_requests (world env) (x :: l)
                    (output args) (set_fs f st) u) as Hd.
      destruct (download_sequential _ _ _ _) as [st' [|e]]; by apply Hd. }
  destruct Hin as [?|Hin]; [by left|right].
  exists p, s. split_and!; [done..|]. apply elem_of_elements. by rewrite El.
Qed.

(** X21: no image request of a run carries a parameter that the command
    line asks to remove: [width] and [height] under [--raw_image],
    [watermark] under [--no_watermark], and every name given to
    [--remove_params]. *)
Theorem run_requests_lack_removed_keys (env : Env) (args : Args)
    (st : State) (u k : string) :
  u ∈ requests (main env args st).1 ->
  u ∉ requests st ->
  k ∈ removed_keys (removal_rules args) ->
  has_key k (parse_qs (url_query u)) = false.
Proof.
  intros Hu Hnew Hk.
  apply main_requests in Hu as [?|(p & s & Hp & Hs & Hu)]; [done|].
  eapply extracted_urls_lack_removed_keys; [|exact Hs|exact Hu|exact Hk].
  by eapply main_base_no_query.
Qed.

(** X22: a run that gets no content from the listing page, or finds no
    image URL in it, ends with status 1 without an image request, a wait
    or a message of [download_image]. *)
Theorem run_without_images_exits_1 (env : Env) (args : Args) (st : State) :
  let page_url := get_page_url (base_url args) (order_id args) in
  get_html_content env page_url = "" \/
  (exists p,
     UrlParse.urlparse bracketed_netloc_ok nfkc_netloc_ok page_url ""
     = Some p /\
     Extract.extract_image_urls bracketed_netloc_ok nfkc_netloc_ok
       (BeautifulSoup env (get_html_content env page_url))
       (scheme p +:+ "://" +:+ netloc p) (extensions args)
       (removal_rules args) = Some []) ->
  (main env args st).2 = 1 /\
  requests (main env args st).1 = requests st /\
  slept (main env args st).1 = slept st /\
  messages (main env args st).1 = messages st.
Proof.
  intros page_url H. unfold main, Main.main. fold page_url.
  destruct (UrlParse.urlparse _ _ page_url "") as [p|] eqn:Hp; [|done].
  destruct (makedirs (output args) (fs st)) as [f|]; [|done].
  destruct (truthy (get_html_content env page_url)) eqn:Ht; [|done].
  cbn [negb]. destruct H as [H|(p' & Hp' & H)].
  - by rewrite H in Ht.
  - assert (p' = p) as -> by congruence. by rewrite H.
Qed.

End Run.

Lemma main_parallel_exit_0_witness :
  (Main.main lenient lenient (listing dead_server) parallel_args
     empty_state).2 = 0.
Proof.
  apply (main_parallel_exit_0 lenient lenient (listing dead_server)
           parallel_args empty_state parsed_page
           {[ out_dir := Dir ]} a_url [b_url]);
    [reflexivity|vm_compute; reflexivity|vm_compute; reflexivity
    |vm_compute; discriminate|vm_compute; reflexivity].
Defined.

Lemma main_sequential_exit_1_witness :
  Main.main lenient lenient (listing dead_server) sequential_args empty_state
  = (mkState {[ out_dir := Dir ]} [a_url; a_url; a_url] 4
       [FailedToDownload a_url; FailedToDownload a_url;
        FailedToDownload a_url],
     1).
Proof.
  apply (main_sequential_exit_1 lenient lenient (listing dead_server)
           sequential_args empty_state _ parsed_page
           {[ out_dir := Dir ]} a_url [b_url] RetryError);
    [reflexivity|vm_compute; reflexivity|vm_compute; reflexivity
    |vm_compute; discriminate|vm_compute; reflexivity
    |vm_compute; reflexivity].
Defined.

Lemma run_requests_lack_removed_keys_witness :
  requests (Main.main lenient lenient (sized_listing good_server) raw_args
              empty_state).1
  = ["https://portal.diakrit.com/orderfiles/a.jpg?watermark=1"] /\
  has_key "width" (parse_qs (url_query
    "https://portal.diakrit.com/orderfiles/a.jpg?watermark=1")) = false.
Proof.
  assert (H : requests (Main.main lenient lenient (sized_listing good_server)
                          raw_args empty_state).1
              = ["https://portal.diakrit.com/orderfiles/a.jpg?watermark=1"])
    by (vm_compute; reflexivity).
  split; [exact H|].
  apply (run_requests_lack_removed_keys lenient lenient
           (sized_listing good_server) raw_args empty_state).
  - rewrite H. left.
  - vm_compute. apply not_elem_of_nil.
  - vm_compute. left.
Defined.

Lemma run_without_images_exits_1_witness :
  (Main.main lenient lenient silent_portal sequential_args empty_state).2 = 1 /\
  requests (Main.main lenient lenient silent_portal sequential_args
              empty_state).1 = [] /\
  slept (Main.main lenient lenient silent_portal sequential_args
           empty_state).1 = 0 /\
  messages (Main.main lenient lenient silent_portal sequential_args
              empty_state).1 = [].
Proof.
  apply (run_without_images_exits_1 lenient lenient silent_portal
           sequential_args empty_state).
  left. vm_compute. reflexivity.
Defined.

End RunFacts.

(** ** Downloads that cannot succeed *)

Module DownloadEdges.
Import PyStr UrlParse Download Views Cases Scenarios StrFacts DownloadProps
       RetryFacts.

Section Attempt.
Variable bracketed_netloc_ok : string -> bool.
Variable nfkc_netloc_ok : string -> bool.
Variable w : World.

Abbreviation local_filename :=
  (Download.local_filename bracketed_netloc_ok nfkc_netloc_ok).
Abbreviation attempt := (Download.attempt bracketed_netloc_ok nfkc_netloc_ok w).
Abbreviation download_image :=
  (Download.download_image bracketed_netloc_ok nfkc_netloc_ok w).

(** X24: a URL that [urlparse] rejects is tried three times all the same,
    with the two waits, although no request is made: each attempt says
    that there was an error, and [RetryError] is raised. *)
Theorem unparsable_url_is_retried (url output_dir : string) (st : State) :
  local_filename url output_dir = None ->
  download_image url output_dir st =
  (mkState (fs st) (requests st) (slept st + 4)
           (messages st ++ [ErrorDownloading url; ErrorDownloading url;
                            ErrorDownloading url]),
   Raised RetryError).
Proof.
  intros Hl. unfold download_image, Download.download_image.
  unfold stop_after_attempt. cbn [retry].
  unfold Download.attempt. fold (local_filename url output_dir).
  rewrite Hl. unfold fail, say, sleep, wait_fixed. simpl.
  do 2 f_equal; [lia|]. by rewrite <- !(assoc_L (++)).
Qed.

Lemma attempt_unwritable (url output_dir local : string) (st : State)
    (body : list Step) :
  local_filename url output_dir = Some local ->
  fs st !! local = None ->
  fetch w (length (requests st)) url = Response true body ->
  can_open w (length (requests st)) local = false ->
  attempt url output_dir st =
  (mkState (fs st) (requests st ++ [url]) (slept st)
           (messages st ++ [ErrorDownloading url]),
   Raised OtherException).
Proof.
  intros Hl Hno Hfetch Hopen. unfold attempt, Download.attempt.
  fold (local_filename url output_dir).
  rewrite Hl. unfold exists_path.
  rewrite bool_decide_eq_false_2 by (rewrite Hno; by intros [? ?]).
  by rewrite Hfetch, Hopen.
Qed.

(** X25: when every request gets a success status and the file can never
    be opened for writing, the call makes three requests with two waits of
    two seconds, says three times that there was an error, creates no file
    and raises [RetryError]. *)
Theorem unwritable_file_gives_up (url output_dir local : string)
    (st : State) :
  local_filename url output_dir = Some local ->
  fs st !! local = None ->
  (forall n, exists body, fetch w n url = Response true body) ->
  (forall n, can_open w n local = false) ->
  download_image url output_dir st =
  (mkState (fs st) (requests st ++ [url; url; url]) (slept st + 4)
           (messages st ++ [ErrorDownloading url; ErrorDownloading url;
                            ErrorDownloading url]),
   Raised RetryError).
Proof.
  intros Hl Hno Hfetch Hopen.
  unfold download_image, Download.download_image. simpl.
  destruct (Hfetch (length (requests st))) as [b1 H1].
  rewrite (attempt_unwritable _ _ local _ b1) by done. simpl.
  destruct (Hfetch (length (requests st ++ [url]))) as [b2 H2].
  rewrite (attempt_unwritable _ _ local _ b2) by done. simpl.
  destruct (Hfetch (length ((requests st ++ [url]) ++ [url]))) as [b3 H3].
  rewrite (attempt_unwritable _ _ local _ b3) by done. simpl.
  unfold wait_fixed. do 2 f_equal; [|lia | ]; by rewrite <- !(assoc_L (++)).
Qed.

End Attempt.

Lemma unparsable_url_is_retried_witness :
  Download.download_image lenient lenient good_server bracket_href out_dir
    empty_state
  = (mkState ∅ [] 4
       [ErrorDownloading bracket_href; ErrorDownloading bracket_href;
        ErrorDownloading bracket_href],
     Raised RetryError).
Proof.
  apply (unparsable_url_is_retried lenient lenient good_server
           bracket_href out_dir empty_state).
  vm_compute. reflexivity.
Defined.

Lemma unwritable_file_gives_up_witness :
  Download.download_image lenient lenient read_only_disk a_url out_dir
    empty_state
  = (mkState ∅ [a_url; a_url; a_url] 4
       [ErrorDownloading a_url; ErrorDownloading a_url;
        ErrorDownloading a_url],
     Raised RetryError).
Proof.
  apply (unwritable_file_gives_up lenient lenient read_only_disk
           a_url out_dir a_local empty_state);
    [vm_compute; reflexivity|vm_compute; reflexivity| |].
  - intros n. eexists. reflexivity.
  - intros n. reflexivity.
Defined.

End DownloadEdges.

(** ** The rules as a set of keys *)

Module RulesFacts.
Import PyStr UrlParse Extract Shape Views Cases Scenarios StrFacts DictFacts
       RoundTrip ExtractFacts ExtractProps.


Lemma filter_keys_ext (ks1 ks2 : list string) (d : dict) :
  (forall k, k ∈ ks1 <-> k ∈ ks2) ->
  List.filter (fun kv => bool_decide (fst kv ∉ ks1)) d
  = List.filter (fun kv => bool_decide (fst kv ∉ ks2)) d.
Proof.
  intros Hks. induction d as [|kv d IH]; [done|]. cbn [List.filter].
  rewrite IH. by rewrite (bool_decide_ext (kv.1 ∉ ks1) (kv.1 ∉ ks2))
    by (by rewrite Hks).
Qed.

(** The removal depends on the set of the named keys only. *)
Lemma remove_keys_ext (rp1 rp2 : RemoveParams) (d : dict) :
  (forall k, k ∈ removed_keys rp1 <-> k ∈ removed_keys rp2) ->
  remove_keys rp1 d = remove_keys rp2 d.
Proof. intros Hks. rewrite !remove_keys_filter. by apply filter_keys_ext. Qed.

Section Extraction.
Variable bracketed_netloc_ok : string -> bool.
Variable nfkc_netloc_ok : string -> bool.

Abbreviation visit := (Extract.visit bracketed_netloc_ok nfkc_netloc_ok).
Abbreviation image_url_set :=
  (Extract.image_url_set bracketed_netloc_ok nfkc_netloc_ok).
Abbreviation extract_image_urls :=
  (Extract.extract_image_urls bracketed_netloc_ok nfkc_netloc_ok).

Lemma visit_ext (base_url : string) (extensions : list string)
    (rp1 rp2 : RemoveParams) (s : gset string) (href : string) :
  (forall k, k ∈ removed_keys rp1 <-> k ∈ removed_keys rp2) ->
  visit base_url extensions rp1 s href = visit base_url extensions rp2 s href.
Proof.
  intros Hks. unfold visit, Extract.visit, clean_url, new_query.
  destruct (contains "/orderfiles/" href); [|done].
  destruct (UrlParse.urlparse _ _ href "") as [p|]; [|done].
  cbn [mbind option_bind].
  by rewrite (remove_keys_ext rp1 rp2 _ Hks).
Qed.

(** X26: the extraction depends on the set of keys that the rules name,
    not on the way they are named: [raw_image] is the same as naming
    [width] and [height] in [additional_params], [no_watermark] the same as
    naming [watermark], and the order of the names does not matter. *)
Theorem rules_are_a_set_of_keys (soup : list Tag) (base_url : string)
    (extensions : list string) (rp1 rp2 : RemoveParams) :
  (forall k, k ∈ removed_keys rp1 <-> k ∈ removed_keys rp2) ->
  extract_image_urls soup base_url extensions rp1
  = extract_image_urls soup base_url extensions rp2.
Proof.
  intros Hks. unfold extract_image_urls, Extract.extract_image_urls.
  f_equal. unfold Extract.image_url_set.
  generalize (Some (∅ : gset string)).
  induction (anchors soup) as [|h hrefs IH]; intros acc; [done|].
  cbn [foldl]. rewrite <- IH. f_equal.
  destruct acc as [s|]; [|done]. cbn [mbind option_bind].
  by apply visit_ext.
Qed.

End Extraction.

Lemma rules_are_a_set_of_keys_witness :
  Extract.extract_image_urls lenient lenient two_widths portal [".jpg"]
    raw_no_watermark
  = Extract.extract_image_urls lenient lenient two_widths portal [".jpg"]
      by_hand.
Proof.
  apply (rules_are_a_set_of_keys lenient lenient).
  intros k. unfold removed_keys. cbn.
  rewrite !elem_of_cons, !elem_of_nil. tauto.
Defined.

End RulesFacts.
